(** * Scheduling core of the SIH train scheduler: a shallow embedding

    Models of [src/core/models.py], [src/core/greedy_scheduler.py],
    [src/core/solver.py], [src/sim/simulator.py] and, of [src/api.py],
    the hold application of [/adjust], the conflict subset of [/resolve]
    and the lateness map of [/schedule] and [/whatif]. *)

From stdpp Require Import base gmap strings list sorting.
From Stdlib Require Import ZArith Lia QArith.

Open Scope Z_scope.

(* ------------------------------------------------------------------ *)
(** ** Data model ([src/core/models.py]) *)

(** [Seconds = int] *)
Abbreviation Seconds := Z (only parsing).

(** [@dataclass class Section] ([Section] is a Rocq keyword). *)
Record Section_ := mkSection {
  s_id : string;
  headway_seconds : Seconds;
  traverse_seconds : Seconds;
  block_windows : option (list (Seconds * Seconds));
  platform_capacity : option Z;
  conflicts_with : option (gmap string Seconds);
  conflict_groups : option (gmap string Seconds)
}.

(** [@dataclass class TrainRequest] *)
Record TrainRequest := mkTrain {
  t_id : string;
  priority : Z;
  route_sections : list string;
  planned_departure : Seconds;
  dwell_before : option (gmap string Seconds);
  due_time : option Seconds
}.

(** [@dataclass class ScheduleItem] *)
Record ScheduleItem := mkItem {
  train_id : string;
  section_id : string;
  entry : Seconds;
  exit : Seconds
}.

(** [@dataclass class NetworkModel] *)
Record NetworkModel := mkNetwork { sections : list Section_ }.

(** Python exceptions that the modelled code can raise. [FuelExhausted]
    is the cut-off of the fuel that bounds the [while True] loop of
    [_find_earliest]; the fuel given there is enough for the loop to end. *)
Inductive exn :=
| KeyError (msg : string)
| TypeError (msg : string)
| FuelExhausted.

(** A computation that returns a value or raises. *)
Inductive result (A : Type) := Ok (a : A) | Err (e : exn).
Arguments Ok {A} a.
Arguments Err {A} e.

Global Instance result_ret : MRet result := λ A a, Ok a.
Global Instance result_bind : MBind result :=
  λ A B f m, match m with Ok a => f a | Err e => Err e end.

Definition of_option {A} (e : exn) (o : option A) : result A :=
  match o with Some a => Ok a | None => Err e end.

(** [NetworkModel.section_by_id]: a linear scan over [self.sections]. *)
Fixpoint find_section (secs : list Section_) (sid : string) : option Section_ :=
  match secs with
  | [] => None
  | s :: rest => if String.eqb (s_id s) sid then Some s else find_section rest sid
  end.

Definition section_by_id (net : NetworkModel) (sid : string) : result Section_ :=
  of_option (KeyError (String.append "Section " (String.append sid " not found")))
            (find_section (sections net) sid).

(* ------------------------------------------------------------------ *)
(** ** Interval store: [_find_earliest] and [_insert_occupancy] *)

(** One iteration of [for (b0, b1) in blocks]: the state is
    [(entry, moved_for_block)]. *)
Definition block_step (traverse : Z) (st : Z * bool) (b : Z * Z) : Z * bool :=
  let '(e, moved) := st in
  let '(b0, b1) := b in
  if negb ((e + traverse <=? b0) || (b1 <=? e)) then (b1, true) else (e, moved).

Definition block_pass (e traverse : Z) (blocks : list (Z * Z)) : Z * bool :=
  fold_left (block_step traverse) blocks (e, false).

(** The scan [while i < len(occ)] from [i = 0] up to the first interval
    that the candidate does not clear. *)
Fixpoint first_conflict (e headway traverse : Z) (occ : list ScheduleItem)
  : option ScheduleItem :=
  match occ with
  | [] => None
  | cur :: rest =>
      let earliest_after_prev := exit cur + headway in
      if negb ((e + traverse + headway <=? entry cur) || (earliest_after_prev <=? e))
      then Some cur
      else first_conflict e headway traverse rest
  end.

(** The inner [while] loop: on a conflict, shift the entry and restart
    at [i = 0]; when no interval conflicts, the scan is done. *)
Fixpoint occ_scan (fuel : nat) (headway traverse : Z) (occ : list ScheduleItem)
  (e : Z) : option Z :=
  match fuel with
  | O => None
  | S f =>
      match first_conflict e headway traverse occ with
      | None => Some e
      | Some cur =>
          let earliest_after_prev := exit cur + headway in
          occ_scan f headway traverse occ (Z.max earliest_after_prev (exit cur + headway))
      end
  end.

(** The outer [while True] loop: a pass over the blocks; if it moved the
    entry, [continue]; otherwise run the occupancy scan and [break]. *)
Fixpoint find_loop (fuel_b fuel_o : nat) (headway traverse : Z)
  (occ : list ScheduleItem) (blocks : list (Z * Z)) (e : Z) : option Z :=
  match fuel_b with
  | O => None
  | S f =>
      let '(e', moved) := block_pass e traverse blocks in
      if moved then find_loop f fuel_o headway traverse occ blocks e'
      else occ_scan fuel_o headway traverse occ e'
  end.

Definition find_earliest (start headway traverse : Z) (occ : list ScheduleItem)
  (blocks : list (Z * Z)) : option Z :=
  find_loop (S (length blocks)) (S (length occ)) headway traverse occ blocks start.

(** [_insert_occupancy]: insert after every item with [entry <= item.entry]. *)
Fixpoint insert_occupancy (occ : list ScheduleItem) (item : ScheduleItem)
  : list ScheduleItem :=
  match occ with
  | [] => [item]
  | x :: rest =>
      if entry x <=? entry item then x :: insert_occupancy rest item
      else item :: occ
  end.

(* ------------------------------------------------------------------ *)
(** ** Greedy scheduler ([greedy_scheduler.schedule_trains]) *)

(** [sorted(trains, key=lambda t: (-t.priority, t.planned_departure))]:
    Python's sort is stable, as is this insertion sort (an element goes
    before the first one whose key is not smaller). *)
Definition key_le (a b : TrainRequest) : bool :=
  (- priority a <? - priority b)
  || ((- priority a =? - priority b) && (planned_departure a <=? planned_departure b)).

Fixpoint insert_sorted (t : TrainRequest) (l : list TrainRequest) : list TrainRequest :=
  match l with
  | [] => [t]
  | u :: rest => if key_le t u then t :: l else u :: insert_sorted t rest
  end.

Fixpoint sort_trains (l : list TrainRequest) : list TrainRequest :=
  match l with
  | [] => []
  | t :: rest => insert_sorted t (sort_trains rest)
  end.

(** [occupancy = {s.id: [] for s in network.sections}] *)
Definition init_occupancy (net : NetworkModel) : gmap string (list ScheduleItem) :=
  fold_left (λ m s, <[s_id s := []]> m) (sections net) ∅.

Definition or_empty {A} (o : option (list A)) : list A :=
  match o with Some l => l | None => [] end.

(** The state threaded through the loops: [occupancy] and [result]. *)
Record GState := mkGState {
  occupancy : gmap string (list ScheduleItem);
  result_items : list ScheduleItem
}.

(** One iteration of [for sid in t.route_sections]; [prev_exit] is the
    third component. *)
Definition schedule_leg (net : NetworkModel) (t : TrainRequest)
  (st : GState) (prev_exit : Z) (sid : string) : result (GState * Z) :=
  sec ← section_by_id net sid;
  let headway := headway_seconds sec in
  let traverse := traverse_seconds sec in
  let e0 := Z.max prev_exit (planned_departure t) in
  occ_sid ← of_option (KeyError sid) (occupancy st !! sid);
  e ← of_option FuelExhausted
        (find_earliest e0 headway traverse occ_sid (or_empty (block_windows sec)));
  let exit_time := e + traverse in
  let item := mkItem (t_id t) sid e exit_time in
  Ok (mkGState (<[sid := insert_occupancy occ_sid item]> (occupancy st))
               (result_items st ++ [item]),
      exit_time + headway).

Fixpoint schedule_route (net : NetworkModel) (t : TrainRequest) (route : list string)
  (st : GState) (prev_exit : Z) : result GState :=
  match route with
  | [] => Ok st
  | sid :: rest =>
      '(st', prev_exit') ← schedule_leg net t st prev_exit sid;
      schedule_route net t rest st' prev_exit'
  end.

Fixpoint schedule_all (net : NetworkModel) (ts : list TrainRequest) (st : GState)
  : result GState :=
  match ts with
  | [] => Ok st
  | t :: rest =>
      st' ← schedule_route net t (route_sections t) st (planned_departure t);
      schedule_all net rest st'
  end.

Definition greedy_schedule (trains : list TrainRequest) (net : NetworkModel)
  : result (list ScheduleItem) :=
  st ← schedule_all net (sort_trains trains) (mkGState (init_occupancy net) []);
  Ok (result_items st).

(* ------------------------------------------------------------------ *)
(** ** Solver dispatcher ([src/core/solver.py]) *)

(** Binding of a Python call to a function whose parameters (all
    without default) are [params]: [npos] positional arguments and the
    keyword arguments [kwargs]. The call raises [TypeError] before the
    body runs when too many positional arguments are given, a keyword
    names no parameter or one already bound, or a parameter stays
    unbound. *)
Definition bind_call {A} (params : list string) (npos : nat) (kwargs : list string)
  (body : unit -> result A) : result A :=
  if bool_decide (length params < npos)%nat then Err (TypeError "too many positional arguments")
  else if existsb (λ k, bool_decide (k ∉ drop npos params)) kwargs
  then Err (TypeError "got an unexpected keyword argument")
  else if existsb (λ p, bool_decide (p ∉ kwargs)) (drop npos params)
  then Err (TypeError "missing a required argument")
  else body tt.

(** [def schedule_trains_milp(network, trains)]: its parameter list. *)
Definition schedule_trains_milp_params : list string := ["network"; "trains"].

Section Dispatcher.

(** The body of [schedule_trains_milp] (the PuLP/CBC model); any
    behaviour, including raising. *)
Variable schedule_trains_milp : NetworkModel -> list TrainRequest -> result (list ScheduleItem).

(** [solver.schedule_trains]:
<<
    if solver == "milp":
        try:
            return schedule_trains_milp(network, trains, time_limit=milp_time_limit)
        except Exception:
            return greedy_schedule(trains, network)
    return greedy_schedule(trains, network)
>> *)
Definition schedule_trains (trains : list TrainRequest) (network : NetworkModel)
  (solver : string) (milp_time_limit : option Z) : result (list ScheduleItem) :=
  if String.eqb solver "milp" then
    match bind_call schedule_trains_milp_params 2 ["time_limit"]
            (λ _, schedule_trains_milp network trains) with
    | Ok r => Ok r
    | Err _ => greedy_schedule trains network
    end
  else greedy_schedule trains network.

End Dispatcher.

(* ------------------------------------------------------------------ *)
(** ** KPI computer: [lateness_kpis] ([src/sim/simulator.py]) *)

(** The float arithmetic [100.0 * k / n] and [total / n] is modelled by
    exact rationals; rounding to the nearest float is monotone, so order
    relations between the values carry over. *)
Record LatenessKpis := mkLatenessKpis {
  otp_end : Q;
  avg_lateness : Q;
  total_lateness : Q
}.

Definition zero_kpis : LatenessKpis := mkLatenessKpis 0 0 0.

(** [entries = [it.entry for it in items if it.train_id == t.id and
    it.section_id == last_sid]] *)
Definition entries_on (items : list ScheduleItem) (tid sid : string) : list Z :=
  map entry (List.filter (λ it, String.eqb (train_id it) tid && String.eqb (section_id it) sid) items).

(** The loop filling [lateness_by_train]. *)
Definition lateness_step (items : list ScheduleItem) (m : gmap string Z) (t : TrainRequest)
  : gmap string Z :=
  match due_time t, last (route_sections t) with
  | Some due, Some last_sid =>
      match entries_on items (t_id t) last_sid with
      | e0 :: _ => <[t_id t := Z.max 0 (e0 - due)]> m
      | [] => m
      end
  | _, _ => m
  end.

Definition lateness_by_train (items : list ScheduleItem) (trains : list TrainRequest)
  : gmap string Z :=
  fold_left (lateness_step items) trains ∅.

(** [sum(1 for v in lateness_by_train.values() if v <= tol)] *)
Definition count_within (tol : Z) (vs : list Z) : Z :=
  Z.of_nat (length (List.filter (λ v, v <=? tol) vs)).

Definition lateness_kpis (items : list ScheduleItem) (trains : list TrainRequest)
  (otp_tolerance_s : Z) : LatenessKpis :=
  match items, trains with
  | [], _ | _, [] => zero_kpis
  | _, _ =>
      let m := lateness_by_train items trains in
      let vs := map snd (map_to_list m) in
      match length vs with
      | O => zero_kpis
      | S _ =>
          let n := Z.of_nat (length vs) in
          let total := foldr Z.add 0 vs in
          let tol := otp_tolerance_s in
          mkLatenessKpis ((100 * count_within tol vs) # Z.to_pos n)
                         (total # Z.to_pos n) (inject_Z total)
      end
  end.

(* ------------------------------------------------------------------ *)
(** ** Hold application of the [/adjust] endpoint ([src/api.py]) *)

(** [class HoldAdjustment(BaseModel)] *)
Record HoldAdjustment := mkHold { h_train_id : string; add_seconds : Z }.

(** The train dicts of [state["trains"]], already restricted to the keys
    kept by [_clean_train_dict], are held in a shared store (the list
    [trains_in]); [by_id] maps an id to the position of the dict it
    aliases: [by_id = {t.get("id"): t for t in trains_in}], a later dict
    with the same id replacing an earlier one. *)
Fixpoint index_by_id (i : nat) (l : list TrainRequest) (m : gmap string nat)
  : gmap string nat :=
  match l with
  | [] => m
  | t :: rest => index_by_id (S i) rest (<[t_id t := i]> m)
  end.

Definition set_planned_departure (t : TrainRequest) (pd : Z) : TrainRequest :=
  mkTrain (t_id t) (priority t) (route_sections t) pd (dwell_before t) (due_time t).

(** One iteration of [for h in holds]: the dict aliased by
    [by_id[h.train_id]] is updated in the shared store;
    [int(d.get("planned_departure", 0) or 0)] is the integer itself. *)
Definition apply_hold (by_id : gmap string nat) (store : list TrainRequest)
  (h : HoldAdjustment) : list TrainRequest :=
  match by_id !! h_train_id h with
  | Some i =>
      match store !! i with
      | Some d => <[i := set_planned_departure d (planned_departure d + add_seconds h)]> store
      | None => store
      end
  | None => store
  end.

(** The [Section(...)] built from a section dict:
    [block_windows=[(int(a), int(b)) for a, b in bw] if bw else None]. *)
Definition section_of_dict (s : Section_) : Section_ :=
  mkSection (s_id s) (headway_seconds s) (traverse_seconds s)
    (match block_windows s with Some [] | None => None | Some bw => Some bw end)
    (platform_capacity s) (conflicts_with s) (conflict_groups s).

(** What [/adjust] hands to [schedule_trains]: the sections and trains;
    [None] is the early [{"error": "missing state"}] when the state has
    no trains. *)
Definition adjust_inputs (state_sections : list Section_) (trains_in : list TrainRequest)
  (holds : list HoldAdjustment) : option (list Section_ * list TrainRequest) :=
  match trains_in with
  | [] => None
  | _ =>
      let by_id := index_by_id 0 trains_in ∅ in
      let store := fold_left (apply_hold by_id) holds trains_in in
      Some (map section_of_dict state_sections, store)
  end.

(** The whole [/adjust] scheduling step, with the solver of the body. *)
Definition adjust_schedule
  (milp : NetworkModel -> list TrainRequest -> result (list ScheduleItem))
  (state_sections : list Section_) (trains_in : list TrainRequest)
  (holds : list HoldAdjustment) (solver : string) : option (result (list ScheduleItem)) :=
  match adjust_inputs state_sections trains_in holds with
  | None => None
  | Some (secs, trains) => Some (schedule_trains milp trains (mkNetwork secs) solver None)
  end.

(** The sum of [add_seconds] over the holds naming [tid]. *)
Definition total_hold (holds : list HoldAdjustment) (tid : string) : Z :=
  foldr Z.add 0 (map add_seconds (List.filter (λ h, String.eqb (h_train_id h) tid) holds)).

(** Whether position [i] of [l] is the last one carrying the id [tid]. *)
Definition last_with_id (l : list TrainRequest) (i : nat) (tid : string) : Prop :=
  ∀ j t', (i < j)%nat -> l !! j = Some t' -> t_id t' ≠ tid.

(* ================================================================== *)
(** * Properties *)

(* ------------------------------------------------------------------ *)
(** ** Section lookup *)

Lemma find_section_first (secs : list Section_) (sid : string) (s : Section_) :
  find_section secs sid = Some s <->
  ∃ pre post, secs = pre ++ s :: post ∧ s_id s = sid ∧ Forall (λ s', s_id s' ≠ sid) pre.
Proof.
  induction secs as [|s0 rest IH]; simpl.
  - split; [discriminate|]. intros (pre & post & Heq & _). destruct pre; discriminate.
  - destruct (String.eqb_spec (s_id s0) sid) as [Hs0|Hs0].
    + split.
      * intros [= <-]. exists [], rest. auto.
      * intros (pre & post & Heq & Hid & Hpre). destruct pre as [|p pre].
        -- by injection Heq as ->.
        -- injection Heq as -> _. inversion Hpre; congruence.
    + rewrite IH. split.
      * intros (pre & post & -> & Hid & Hpre). exists (s0 :: pre), post. auto.
      * intros (pre & post & Heq & Hid & Hpre). destruct pre as [|p pre].
        -- injection Heq as -> _. congruence.
        -- injection Heq as -> ->. inversion Hpre. eauto.
Qed.

Lemma find_section_none (secs : list Section_) (sid : string) :
  find_section secs sid = None <-> Forall (λ s', s_id s' ≠ sid) secs.
Proof.
  induction secs as [|s0 rest IH]; simpl.
  - split; auto.
  - destruct (String.eqb_spec (s_id s0) sid) as [Hs0|Hs0].
    + split; [discriminate|]. intros H. inversion H. congruence.
    + rewrite IH. split; [auto|]. intros H. by inversion H.
Qed.

Lemma find_section_Some (secs : list Section_) (sid : string) (s : Section_) :
  find_section secs sid = Some s -> s ∈ secs ∧ s_id s = sid.
Proof.
  rewrite find_section_first. intros (pre & post & -> & Hid & _).
  split; [set_solver | done].
Qed.

(** C9: [section_by_id] returns the first section of the declared order
    whose id is [sid], and raises [KeyError] exactly when no section has
    that id; with duplicate ids the earliest declaration wins. *)
Theorem section_by_id_first_or_keyerror (net : NetworkModel) (sid : string) :
  (∀ s, section_by_id net sid = Ok s <->
        ∃ pre post, sections net = pre ++ s :: post ∧ s_id s = sid
                    ∧ Forall (λ s', s_id s' ≠ sid) pre)
  ∧ ((∃ msg, section_by_id net sid = Err (KeyError msg)) <->
     Forall (λ s', s_id s' ≠ sid) (sections net))
  ∧ (∀ e, section_by_id net sid = Err e -> ∃ msg, e = KeyError msg).
Proof.
  unfold section_by_id, of_option. split; [|split].
  - intros s. rewrite <- find_section_first.
    destruct (find_section (sections net) sid); split; congruence.
  - rewrite <- find_section_none.
    destruct (find_section (sections net) sid); split.
    + intros [msg ?]; discriminate.
    + discriminate.
    + done.
    + intros _. eauto.
  - intros e. destruct (find_section (sections net) sid); [discriminate|].
    intros [= <-]. eauto.
Qed.

(* ------------------------------------------------------------------ *)
(** ** Concrete scenarios of the spec *)

Definition scenarioA_net : NetworkModel :=
  mkNetwork [mkSection "S1" 120 100 None None None None].

Definition scenarioA_trains : list TrainRequest :=
  [mkTrain "T1" 1 ["S1"] 0 None None; mkTrain "T2" 2 ["S1"] 60 None None].

(** C7: on Scenario A the greedy scheduler places T2 first at [60, 160)
    and T1 at [280, 380). *)
Theorem greedy_scenario_A :
  greedy_schedule scenarioA_trains scenarioA_net =
  Ok [mkItem "T2" "S1" 60 160; mkItem "T1" "S1" 280 380].
Proof. reflexivity. Qed.

(* ------------------------------------------------------------------ *)
(** ** The dispatcher *)

(** The keyword call [schedule_trains_milp(network, trains,
    time_limit=...)] fails at binding, whatever the body. *)
Lemma milp_call_type_error {A} (body : unit -> result A) :
  ∃ msg, bind_call schedule_trains_milp_params 2 ["time_limit"] body = Err (TypeError msg).
Proof. eexists. reflexivity. Qed.

(** C6: for every solver argument, every time limit and whatever the
    MILP body does, [schedule_trains] returns exactly what the greedy
    scheduler returns. *)
Theorem dispatcher_always_greedy
  (milp : NetworkModel -> list TrainRequest -> result (list ScheduleItem))
  (trains : list TrainRequest) (network : NetworkModel) (solver : string)
  (milp_time_limit : option Z) :
  schedule_trains milp trains network solver milp_time_limit = greedy_schedule trains network.
Proof.
  unfold schedule_trains.
  destruct (String.eqb solver "milp"); [|done].
  destruct (milp_call_type_error (λ _ : unit, milp network trains)) as [msg ->].
  done.
Qed.

(** C1 (evaluation): with a MILP body that returns the empty schedule
    and a time limit of 10 seconds, the "milp" mode still returns the
    greedy schedule of Scenario A, as does the "mip" mode. *)
Theorem dispatcher_milp_mode_scenario_A :
  schedule_trains (λ _ _, Ok []) scenarioA_trains scenarioA_net "milp" (Some 10) =
  Ok [mkItem "T2" "S1" 60 160; mkItem "T1" "S1" 280 380]
  ∧ schedule_trains (λ _ _, Ok []) scenarioA_trains scenarioA_net "mip" (Some 10) =
  Ok [mkItem "T2" "S1" 60 160; mkItem "T1" "S1" 280 380].
Proof. split; reflexivity. Qed.

(* ------------------------------------------------------------------ *)
(** ** Concrete failures of the greedy scheduler *)

(** A section whose occupancy shift lands in a block window. *)
Definition block_cx_net : NetworkModel :=
  mkNetwork [mkSection "S1" 0 100 (Some [(150, 300)]) None None None].

Definition block_cx_trains : list TrainRequest :=
  [mkTrain "A" 1 ["S1"] 0 None None; mkTrain "B" 1 ["S1"] 0 None None].

(** C2 (evaluation): train B is pushed behind A to entry 100, and its
    occupancy [100, 200) overlaps the block window [150, 300). *)
Theorem greedy_block_overlap :
  greedy_schedule block_cx_trains block_cx_net =
  Ok [mkItem "A" "S1" 0 100; mkItem "B" "S1" 100 200]
  ∧ ¬ (100 + 100 <= 150 ∨ 100 >= 300).
Proof. split; [reflexivity | lia]. Qed.

(** The network and train of [tests/test_dwell.py]. *)
Definition dwell_net : NetworkModel :=
  mkNetwork [mkSection "S1" 0 100 None None None None;
             mkSection "S2" 0 50 None None None None].

Definition dwell_trains : list TrainRequest :=
  [mkTrain "T1" 1 ["S1"; "S2"] 0 (Some {[ "S2" := 60 ]}) None].

(** C3 (evaluation): with [dwell_before[S2] = 60] the greedy scheduler
    enters S2 at 100, not at or after [0 + 100 + 60]. *)
Theorem greedy_dwell_ignored :
  greedy_schedule dwell_trains dwell_net =
  Ok [mkItem "T1" "S1" 0 100; mkItem "T1" "S2" 100 150]
  ∧ ¬ (100 >= 0 + 100 + 60).
Proof. split; [reflexivity | lia]. Qed.

(* ------------------------------------------------------------------ *)
(** ** On-time performance *)

Lemma count_within_mono (tol tol' : Z) (vs : list Z) :
  tol <= tol' -> count_within tol vs <= count_within tol' vs.
Proof.
  intros Hle. unfold count_within. apply inj_le.
  induction vs as [|v vs IH]; simpl; [lia|].
  destruct (Z.leb_spec v tol), (Z.leb_spec v tol'); simpl; lia.
Qed.

(** C8: a larger tolerance never lowers [otp_end]. *)
Theorem otp_end_tolerance_monotone (items : list ScheduleItem)
  (trains : list TrainRequest) (tol tol' : Z) :
  0 <= tol -> tol <= tol' ->
  (otp_end (lateness_kpis items trains tol) <= otp_end (lateness_kpis items trains tol'))%Q.
Proof.
  intros _ Hle. unfold lateness_kpis.
  destruct items as [|it items]; [apply Qle_refl|].
  destruct trains as [|t trains]; [apply Qle_refl|].
  set (vs := map snd (map_to_list (lateness_by_train (it :: items) (t :: trains)))).
  destruct (length vs); [apply Qle_refl|].
  simpl. unfold Qle; simpl. 
  pose proof (count_within_mono tol tol' vs Hle).
  match goal with |- context [Z.pos ?p] => pose proof (Pos2Z.is_pos p) end. nia.
Qed.

(** A witness for [otp_end_tolerance_monotone]: one train due at 200
    that enters its last section at 260; its [otp_end] is 0 at
    tolerance 30 and 100 at tolerance 60. *)
Lemma otp_end_tolerance_monotone_witness :
  let items := [mkItem "T1" "S1" 260 360] in
  let trains := [mkTrain "T1" 1 ["S1"] 0 None (Some 200)] in
  otp_end (lateness_kpis items trains 30) == 0 ∧
  otp_end (lateness_kpis items trains 60) == 100 ∧
  (otp_end (lateness_kpis items trains 30) <= otp_end (lateness_kpis items trains 60))%Q.
Proof.
  split; [reflexivity|]. split; [reflexivity|].
  apply otp_end_tolerance_monotone; lia.
Defined.

(* ------------------------------------------------------------------ *)
(** ** [_find_earliest]: termination within its fuel, and what it returns *)

(** The items of [l] whose bound [f x] still lies after [e]. *)
Definition count_alive {A} (f : A -> Z) (e : Z) (l : list A) : nat :=
  length (List.filter (λ x, e <? f x) l).

Lemma count_alive_le_length {A} (f : A -> Z) (e : Z) (l : list A) :
  (count_alive f e l <= length l)%nat.
Proof.
  unfold count_alive. induction l as [|x l IH]; simpl; [lia|].
  destruct (e <? f x); simpl; lia.
Qed.

Lemma count_alive_mono {A} (f : A -> Z) (e e' : Z) (l : list A) :
  e <= e' -> (count_alive f e' l <= count_alive f e l)%nat.
Proof.
  intros Hle. unfold count_alive. induction l as [|x l IH]; simpl; [lia|].
  destruct (Z.ltb_spec e' (f x)), (Z.ltb_spec e (f x)); simpl; lia.
Qed.

Lemma count_alive_strict {A} (f : A -> Z) (e e' : Z) (l : list A) (x : A) :
  e <= e' -> x ∈ l -> e < f x -> f x <= e' ->
  (count_alive f e' l < count_alive f e l)%nat.
Proof.
  intros Hle Hin Hlt Hge. induction l as [|y l IH].
  - by apply elem_of_nil in Hin.
  - pose proof (count_alive_mono f e e' l Hle) as Hm.
    unfold count_alive in *; simpl.
    apply elem_of_cons in Hin as [<-|Hin].
    + destruct (Z.ltb_spec e' (f x)); [lia|].
      destruct (Z.ltb_spec e (f x)); simpl; lia.
    + specialize (IH Hin).
      destruct (Z.ltb_spec e' (f y)), (Z.ltb_spec e (f y)); simpl; lia.
Qed.

Lemma block_fold_spec (traverse : Z) (blocks : list (Z * Z)) (e0 : Z) (m0 : bool)
  (e' : Z) (m' : bool) :
  fold_left (block_step traverse) blocks (e0, m0) = (e', m') ->
  e0 <= e' ∧ ((m' = m0 ∧ e' = e0) ∨ (m' = true ∧ ∃ b, b ∈ blocks ∧ e0 < b.2 ∧ e' = b.2)).
Proof.
  revert e0 m0. induction blocks as [|[b0 b1] blocks IH]; intros e0 m0; simpl.
  - intros [= -> ->]. split; [lia | auto].
  - destruct (Z.leb_spec (e0 + traverse) b0), (Z.leb_spec b1 e0); simpl.
    + intros Hf. destruct (IH _ _ Hf) as [Hle [[-> ->]|[-> (b & Hb & Hlt & ->)]]].
      * split; [lia | auto].
      * split; [lia|]. right. split; [done|]. exists b. split; [set_solver | lia].
    + intros Hf. destruct (IH _ _ Hf) as [Hle [[-> ->]|[-> (b & Hb & Hlt & ->)]]].
      * split; [lia | auto].
      * split; [lia|]. right. split; [done|]. exists b. split; [set_solver | lia].
    + intros Hf. destruct (IH _ _ Hf) as [Hle [[-> ->]|[-> (b & Hb & Hlt & ->)]]].
      * split; [lia | auto].
      * split; [lia|]. right. split; [done|]. exists b. split; [set_solver | lia].
    + intros Hf. destruct (IH _ _ Hf) as [Hle [[-> ->]|[-> (b & Hb & Hlt & ->)]]].
      * split; [lia|]. right. split; [done|]. exists (b0, b1). split; [set_solver | simpl; lia].
      * split; [lia|]. right. split; [done|]. exists b. split; [set_solver | lia].
Qed.

Lemma first_conflict_Some (e headway traverse : Z) (occ : list ScheduleItem)
  (cur : ScheduleItem) :
  first_conflict e headway traverse occ = Some cur ->
  cur ∈ occ ∧ e < exit cur + headway.
Proof.
  induction occ as [|x occ IH]; simpl; [discriminate|].
  destruct (Z.leb_spec (e + traverse + headway) (entry x)),
           (Z.leb_spec (exit x + headway) e); simpl.
  - intros Hfc. destruct (IH Hfc). split; [set_solver | done].
  - intros Hfc. destruct (IH Hfc). split; [set_solver | done].
  - intros Hfc. destruct (IH Hfc). split; [set_solver | done].
  - intros [= <-]. split; [set_solver | lia].
Qed.

Lemma first_conflict_None (e headway traverse : Z) (occ : list ScheduleItem) :
  first_conflict e headway traverse occ = None ->
  ∀ cur, cur ∈ occ -> e + traverse + headway <= entry cur ∨ exit cur + headway <= e.
Proof.
  induction occ as [|x occ IH]; simpl; intros Hfc cur Hin.
  - by apply elem_of_nil in Hin.
  - apply elem_of_cons in Hin as [->|Hin];
      destruct (Z.leb_spec (e + traverse + headway) (entry x)),
               (Z.leb_spec (exit x + headway) e); simpl in Hfc;
      try discriminate; auto.
Qed.

Lemma occ_scan_some (headway traverse : Z) (occ : list ScheduleItem) (n : nat) (e : Z) :
  lt (count_alive (λ c, exit c + headway) e occ) n ->
  ∃ r, occ_scan n headway traverse occ e = Some r.
Proof.
  revert e. induction n as [|n IH]; intros e Hn; [lia|]. simpl.
  destruct (first_conflict e headway traverse occ) as [cur|] eqn:Hc; [|eauto].
  apply first_conflict_Some in Hc as [Hin Hlt].
  apply IH.
  pose proof (count_alive_strict (λ c, exit c + headway) e
                (Z.max (exit cur + headway) (exit cur + headway)) occ cur) as Hs.
  simpl in Hs. specialize (Hs ltac:(lia) Hin Hlt ltac:(lia)). lia.
Qed.

Lemma occ_scan_clear (headway traverse : Z) (occ : list ScheduleItem) (n : nat) (e r : Z) :
  occ_scan n headway traverse occ e = Some r ->
  first_conflict r headway traverse occ = None.
Proof.
  revert e. induction n as [|n IH]; intros e; simpl; [discriminate|].
  destruct (first_conflict e headway traverse occ) eqn:Hc.
  - apply IH.
  - by intros [= <-].
Qed.

Lemma find_loop_some (headway traverse : Z) (occ : list ScheduleItem)
  (blocks : list (Z * Z)) (fo n : nat) (e : Z) :
  (∀ e', ∃ r, occ_scan fo headway traverse occ e' = Some r) ->
  (count_alive snd e blocks < n)%nat ->
  ∃ r, find_loop n fo headway traverse occ blocks e = Some r.
Proof.
  intros Hocc. revert e. induction n as [|n IH]; intros e Hn; [lia|]. simpl.
  unfold block_pass. destruct (fold_left _ blocks (e, false)) as [e' moved] eqn:Hf.
  destruct (block_fold_spec _ _ _ _ _ _ Hf) as [Hle [[-> ->]|[-> (b & Hb & Hlt & ->)]]].
  - apply Hocc.
  - apply IH. pose proof (count_alive_strict snd e b.2 blocks b Hle Hb Hlt ltac:(lia)) as Hs.
    lia.
Qed.

Lemma find_loop_clear (headway traverse : Z) (occ : list ScheduleItem)
  (blocks : list (Z * Z)) (fo n : nat) (e r : Z) :
  find_loop n fo headway traverse occ blocks e = Some r ->
  first_conflict r headway traverse occ = None.
Proof.
  revert e. induction n as [|n IH]; intros e; simpl; [discriminate|].
  destruct (block_pass e traverse blocks) as [e' []].
  - apply IH.
  - apply occ_scan_clear.
Qed.

Lemma find_earliest_some (start headway traverse : Z) (occ : list ScheduleItem)
  (blocks : list (Z * Z)) :
  ∃ r, find_earliest start headway traverse occ blocks = Some r.
Proof.
  unfold find_earliest. apply find_loop_some.
  - intros e'. apply occ_scan_some.
    pose proof (count_alive_le_length (λ c, exit c + headway) e' occ). lia.
  - pose proof (count_alive_le_length snd start blocks). lia.
Qed.

Lemma find_earliest_clear (start headway traverse : Z) (occ : list ScheduleItem)
  (blocks : list (Z * Z)) (r : Z) :
  find_earliest start headway traverse occ blocks = Some r ->
  ∀ cur, cur ∈ occ -> r + traverse + headway <= entry cur ∨ exit cur + headway <= r.
Proof.
  unfold find_earliest. intros H. apply first_conflict_None. by eapply find_loop_clear.
Qed.

(* ------------------------------------------------------------------ *)
(** ** The greedy run: state invariant *)

Lemma elem_of_insert_occupancy (occ : list ScheduleItem) (item x : ScheduleItem) :
  x ∈ insert_occupancy occ item <-> x = item ∨ x ∈ occ.
Proof.
  induction occ as [|y occ IH]; simpl.
  - set_solver.
  - destruct (entry y <=? entry item); set_solver.
Qed.

Lemma init_occupancy_fold (secs : list Section_) (m : gmap string (list ScheduleItem)) :
  (∀ k l, m !! k = Some l -> l = []) ->
  (∀ k l, fold_left (λ m s, <[s_id s := []]> m) secs m !! k = Some l -> l = [])
  ∧ (∀ s, s ∈ secs -> is_Some (fold_left (λ m s, <[s_id s := []]> m) secs m !! s_id s)).
Proof.
  revert m. induction secs as [|s0 secs IH]; intros m Hm; simpl.
  - split; [done|]. intros s Hs. by apply elem_of_nil in Hs.
  - destruct (IH (<[s_id s0 := []]> m)) as [IH1 IH2].
    { intros k l. rewrite lookup_insert. case_decide; [by intros [= <-] | apply Hm]. }
    split; [done|]. intros s Hs. apply elem_of_cons in Hs as [->|Hs]; [|by apply IH2].
    (* the key [s_id s0] is never removed by later inserts *)
    clear IH1 IH2 IH Hm. generalize (<[s_id s0 := []]> m) (lookup_insert_eq m (s_id s0) []).
    induction secs as [|s1 secs IH]; intros m' Hm'; simpl; [by rewrite Hm'|].
    apply IH. rewrite lookup_insert. case_decide; [done|]. by rewrite Hm'.
Qed.

(** What holds of the state after every leg: the occupancy lists are
    the items of their section, every item lasts its section's
    traverse time, and every two items on one section are separated by
    traverse plus headway in one of the two orders. *)
Record GInv (net : NetworkModel) (st : GState) : Prop := {
  inv_keys : ∀ s, s ∈ sections net -> is_Some (occupancy st !! s_id s);
  inv_occ : ∀ sid l, occupancy st !! sid = Some l ->
            ∀ x, x ∈ l <-> x ∈ result_items st ∧ section_id x = sid;
  inv_exit : ∀ x, x ∈ result_items st ->
             ∃ sec, section_by_id net (section_id x) = Ok sec
                    ∧ exit x = entry x + traverse_seconds sec;
  inv_sep : ∀ i j a b, (i < j)%nat ->
            result_items st !! i = Some a -> result_items st !! j = Some b ->
            section_id a = section_id b ->
            ∃ sec, section_by_id net (section_id a) = Ok sec
                   ∧ (entry a + traverse_seconds sec + headway_seconds sec <= entry b
                      ∨ entry b + traverse_seconds sec + headway_seconds sec <= entry a)
}.

Lemma ginv_init (net : NetworkModel) : GInv net (mkGState (init_occupancy net) []).
Proof.
  destruct (init_occupancy_fold (sections net) ∅) as [H1 H2].
  { intros k l. by rewrite lookup_empty. }
  split; simpl.
  - exact H2.
  - intros sid l Hl x. rewrite (H1 _ _ Hl). set_solver.
  - intros x Hx. by apply elem_of_nil in Hx.
  - intros i j a b _ Ha. by rewrite lookup_nil in Ha.
Qed.

Lemma schedule_leg_inv (net : NetworkModel) (t : TrainRequest) (st st' : GState)
  (pe pe' : Z) (sid : string) :
  GInv net st -> schedule_leg net t st pe sid = Ok (st', pe') -> GInv net st'.
Proof.
  intros [Hkeys Hocc Hexit Hsep]. unfold schedule_leg.
  destruct (section_by_id net sid) as [sec|] eqn:Hsec; [|discriminate].
  cbn -[find_earliest].
  destruct (occupancy st !! sid) as [occ_sid|] eqn:Hos; [|discriminate].
  cbn -[find_earliest].
  destruct (find_earliest _ _ _ occ_sid _) as [e|] eqn:He; [|discriminate].
  simpl. intros [= <- _].
  pose proof (find_earliest_clear _ _ _ _ _ _ He) as Hclear.
  split; simpl.
  - intros s Hs. rewrite lookup_insert. case_decide; [done|]. by apply Hkeys.
  - intros sid' l. rewrite lookup_insert. case_decide as Hk.
    + subst sid'. intros [= <-] x.
      rewrite elem_of_insert_occupancy, elem_of_app, list_elem_of_singleton, (Hocc _ _ Hos).
      split.
      * intros [->|[Hx Hs]]; split; auto.
      * intros [[Hx| ->] Hs]; auto.
    + intros Hl x. rewrite (Hocc _ _ Hl), elem_of_app, list_elem_of_singleton.
      split.
      * intros [Hx Hs]; auto.
      * intros [[Hx| ->] Hs]; [auto | simpl in *; congruence].
  - intros x. rewrite elem_of_app, list_elem_of_singleton. intros [Hx| ->]; [by apply Hexit|].
    exists sec. simpl. auto.
  - intros i j a b Hij Ha Hb Hab.
    destruct (decide (j < length (result_items st))%nat) as [Hj|Hj].
    + rewrite lookup_app_l in Ha by lia. rewrite lookup_app_l in Hb by lia.
      exact (Hsep i j a b Hij Ha Hb Hab).
    + rewrite lookup_app_r in Hb by lia.
      apply list_lookup_singleton_Some in Hb as [Hj0 <-].
      rewrite lookup_app_l in Ha.
      2: lia.
      simpl in Hab |- *. subst sid.
      assert (Hain : a ∈ result_items st) by (by eapply list_elem_of_lookup_2).
      destruct (Hexit a Hain) as (sec' & Hsec' & Hxa).
      rewrite Hsec in Hsec'. injection Hsec' as <-.
      assert (Hocca : a ∈ occ_sid) by (apply (Hocc _ _ Hos); auto).
      exists sec. split; [done|].
      specialize (Hclear a Hocca). lia.
Qed.

Lemma schedule_route_inv (net : NetworkModel) (t : TrainRequest) (route : list string)
  (st st' : GState) (pe : Z) :
  GInv net st -> schedule_route net t route st pe = Ok st' -> GInv net st'.
Proof.
  revert st pe. induction route as [|sid route IH]; intros st pe Hinv; simpl.
  - by intros [= <-].
  - destruct (schedule_leg net t st pe sid) as [[st1 pe1]|] eqn:Hleg; [|discriminate].
    simpl. apply IH. by eapply schedule_leg_inv.
Qed.

Lemma schedule_all_inv (net : NetworkModel) (ts : list TrainRequest) (st st' : GState) :
  GInv net st -> schedule_all net ts st = Ok st' -> GInv net st'.
Proof.
  revert st. induction ts as [|t ts IH]; intros st Hinv; simpl.
  - by intros [= <-].
  - destruct (schedule_route net t (route_sections t) st (planned_departure t)) as [st1|]
      eqn:Hr; [|discriminate].
    simpl. apply IH. by eapply schedule_route_inv.
Qed.

Lemma greedy_schedule_inv (trains : list TrainRequest) (net : NetworkModel)
  (res : list ScheduleItem) :
  greedy_schedule trains net = Ok res ->
  ∃ st, GInv net st ∧ result_items st = res.
Proof.
  unfold greedy_schedule.
  destruct (schedule_all net (sort_trains trains) (mkGState (init_occupancy net) []))
    as [st|] eqn:Hall; [|discriminate].
  simpl. intros [= <-]. exists st. split; [|done].
  eapply schedule_all_inv; [apply ginv_init | exact Hall].
Qed.

(** C5: in a schedule returned by the greedy scheduler, any two distinct
    items (positions [i < j]) on the same section [s] last [D[s]] each
    and their entries are at least [D[s] + H[s]] apart in one of the two
    orders: the later entry is at or after the earlier exit plus
    [H[s]], so the occupancy intervals are disjoint. *)
Theorem greedy_same_section_separation (trains : list TrainRequest) (net : NetworkModel)
  (res : list ScheduleItem) :
  greedy_schedule trains net = Ok res ->
  ∀ i j a b, (i < j)%nat -> res !! i = Some a -> res !! j = Some b ->
  section_id a = section_id b ->
  ∃ sec, section_by_id net (section_id a) = Ok sec
         ∧ exit a = entry a + traverse_seconds sec
         ∧ exit b = entry b + traverse_seconds sec
         ∧ (exit a + headway_seconds sec <= entry b ∨ exit b + headway_seconds sec <= entry a).
Proof.
  intros Hg i j a b Hij Ha Hb Hab.
  destruct (greedy_schedule_inv _ _ _ Hg) as (st & [Hkeys Hocc Hexit Hsep] & <-).
  destruct (Hsep i j a b Hij Ha Hb Hab) as (sec & Hsec & Hab').
  destruct (Hexit a ltac:(by eapply list_elem_of_lookup_2)) as (sa & Hsa & Hxa).
  destruct (Hexit b ltac:(by eapply list_elem_of_lookup_2)) as (sb & Hsb & Hxb).
  rewrite <- Hab, Hsec in Hsb. rewrite Hsec in Hsa.
  injection Hsa as <-. injection Hsb as <-.
  exists sec. split; [done|]. split; [done|]. split; [done|]. lia.
Qed.

(** A witness for [greedy_same_section_separation]: Scenario A, where
    T1 enters S1 at 280, after T2's exit 160 plus the headway 120. *)
Lemma greedy_same_section_separation_witness :
  greedy_schedule scenarioA_trains scenarioA_net =
    Ok [mkItem "T2" "S1" 60 160; mkItem "T1" "S1" 280 380] ∧
  ∃ sec, section_by_id scenarioA_net "S1" = Ok sec
         ∧ 160 = 60 + traverse_seconds sec
         ∧ 380 = 280 + traverse_seconds sec
         ∧ (160 + headway_seconds sec <= 280 ∨ 380 + headway_seconds sec <= 60).
Proof.
  split; [reflexivity|].
  exact (greedy_same_section_separation scenarioA_trains scenarioA_net
           [mkItem "T2" "S1" 60 160; mkItem "T1" "S1" 280 380] eq_refl 0 1
           (mkItem "T2" "S1" 60 160) (mkItem "T1" "S1" 280 380)
           ltac:(lia) eq_refl eq_refl eq_refl).
Defined.

(* ------------------------------------------------------------------ *)
(** ** The greedy run: it raises only for unknown sections *)

Lemma elem_of_insert_sorted (t x : TrainRequest) (l : list TrainRequest) :
  x ∈ insert_sorted t l <-> x = t ∨ x ∈ l.
Proof.
  induction l as [|u l IH]; simpl; [set_solver|].
  destruct (key_le t u); set_solver.
Qed.

Lemma elem_of_sort_trains (x : TrainRequest) (l : list TrainRequest) :
  x ∈ sort_trains l <-> x ∈ l.
Proof.
  induction l as [|t l IH]; simpl; [done|].
  rewrite elem_of_insert_sorted, IH. set_solver.
Qed.

(** Every route section names a section of the network. *)
Definition routes_known (net : NetworkModel) (trains : list TrainRequest) : Prop :=
  ∀ t sid, t ∈ trains -> sid ∈ route_sections t -> is_Some (find_section (sections net) sid).

Lemma schedule_leg_ok (net : NetworkModel) (t : TrainRequest) (st : GState)
  (pe : Z) (sid : string) :
  GInv net st -> is_Some (find_section (sections net) sid) ->
  ∃ x, schedule_leg net t st pe sid = Ok x.
Proof.
  intros Hinv [sec Hf]. unfold schedule_leg, section_by_id.
  rewrite Hf. cbn -[find_earliest].
  destruct (find_section_Some _ _ _ Hf) as [Hin <-].
  destruct (inv_keys net st Hinv sec Hin) as [occ_sid Hos]. rewrite Hos.
  cbn -[find_earliest].
  destruct (find_earliest_some (pe `max` planned_departure t) (headway_seconds sec)
              (traverse_seconds sec) occ_sid (or_empty (block_windows sec))) as [e He].
  rewrite He. simpl. eauto.
Qed.

Lemma schedule_route_ok (net : NetworkModel) (t : TrainRequest) (route : list string)
  (st : GState) (pe : Z) :
  GInv net st -> (∀ sid, sid ∈ route -> is_Some (find_section (sections net) sid)) ->
  ∃ st', schedule_route net t route st pe = Ok st'.
Proof.
  revert st pe. induction route as [|sid route IH]; intros st pe Hinv Hk; simpl; [eauto|].
  destruct (schedule_leg_ok net t st pe sid Hinv) as [[st1 pe1] Hleg]; [set_solver|].
  rewrite Hleg. simpl. apply IH; [by eapply schedule_leg_inv | set_solver].
Qed.

Lemma schedule_all_ok (net : NetworkModel) (ts : list TrainRequest) (st : GState) :
  GInv net st -> routes_known net ts -> ∃ st', schedule_all net ts st = Ok st'.
Proof.
  revert st. induction ts as [|t ts IH]; intros st Hinv Hk; simpl; [eauto|].
  destruct (schedule_route_ok net t (route_sections t) st (planned_departure t) Hinv)
    as [st1 Hr].
  { intros sid Hsid. apply (Hk t); [set_solver | done]. }
  rewrite Hr. simpl. apply IH; [by eapply schedule_route_inv |].
  intros t' sid Ht' Hsid. apply (Hk t'); [set_solver | done].
Qed.

(** C4 (as the code has it): [Section] and [TrainRequest] are plain
    dataclasses that check nothing, and the greedy scheduler returns a
    schedule for every input whose routes name known sections, whatever
    the signs of the durations, empty routes or repeated ids; it raises
    only [KeyError], for a route section missing from the network. *)
Theorem greedy_total_without_validation (trains : list TrainRequest) (net : NetworkModel) :
  (routes_known net trains -> ∃ res, greedy_schedule trains net = Ok res)
  ∧ (∀ e, greedy_schedule trains net = Err e -> ∃ msg, e = KeyError msg).
Proof.
  split.
  - intros Hk. unfold greedy_schedule.
    destruct (schedule_all_ok net (sort_trains trains) (mkGState (init_occupancy net) []))
      as [st Hst].
    + apply ginv_init.
    + intros t sid Ht. apply Hk. by apply elem_of_sort_trains.
    + rewrite Hst. simpl. eauto.
  - (* the only other exception of the model, [FuelExhausted], cannot occur *)
    intros e. unfold greedy_schedule.
    assert (Hall : ∀ ts st, GInv net st ->
              ∀ e, schedule_all net ts st = Err e -> ∃ msg, e = KeyError msg).
    { induction ts as [|t ts IH]; intros st Hinv e'; simpl; [discriminate|].
      destruct (schedule_route net t (route_sections t) st (planned_departure t))
        as [st1|e1] eqn:Hr; simpl.
      - apply IH. by eapply schedule_route_inv.
      - intros [= <-]. clear IH. revert st Hinv Hr.
        generalize (planned_departure t).
        induction (route_sections t) as [|sid route IHr]; intros pe st Hinv; simpl;
          [discriminate|].
        destruct (schedule_leg net t st pe sid) as [[st2 pe2]|e2] eqn:Hleg; simpl.
        + apply IHr. by eapply schedule_leg_inv.
        + intros [= ->]. revert Hleg. unfold schedule_leg.
          destruct (section_by_id net sid) as [sec|e3] eqn:Hsec; simpl.
          * destruct (find_section_Some (sections net) sid sec) as [Hin <-].
            { unfold section_by_id, of_option in Hsec.
              destruct (find_section (sections net) sid); congruence. }
            destruct (inv_keys net st Hinv sec Hin) as [occ_sid Hos]. rewrite Hos.
            cbn -[find_earliest].
            destruct (find_earliest_some (pe `max` planned_departure t) (headway_seconds sec)
                        (traverse_seconds sec) occ_sid (or_empty (block_windows sec)))
              as [r Hr'].
            rewrite Hr'. discriminate.
          * intros [= <-]. unfold section_by_id, of_option in Hsec.
            destruct (find_section (sections net) sid); [discriminate|].
            injection Hsec as <-. eauto. }
    destruct (schedule_all net (sort_trains trains) (mkGState (init_occupancy net) []))
      as [st|e'] eqn:Hst; simpl; [discriminate|].
    intros [= <-]. eapply Hall; [apply ginv_init | exact Hst].
Qed.
(** An input that breaks every rule of the data model: a negative
    headway and traverse time, two sections with the id S1, two trains
    with the id T, an empty route, and negative planned departure, dwell
    and due time. *)
Definition invalid_net : NetworkModel :=
  mkNetwork [mkSection "S1" (-5) (-10) None None None None;
             mkSection "S1" 7 7 None None None None].

Definition invalid_trains : list TrainRequest :=
  [mkTrain "T" 1 [] 0 None None;
   mkTrain "T" 1 ["S1"; "S1"] (-3) (Some {[ "S1" := -4 ]}) (Some (-1))].

Lemma invalid_routes_known : routes_known invalid_net invalid_trains.
Proof.
  intros t sid Ht Hsid. unfold invalid_trains in Ht.
  repeat (apply elem_of_cons in Ht as [->|Ht]); [..|by apply elem_of_nil in Ht];
    simpl in Hsid; repeat (apply elem_of_cons in Hsid as [->|Hsid]);
    try (by apply elem_of_nil in Hsid); simpl; eauto.
Qed.

(** C4 counterexample: the invalid input above raises nothing; the
    greedy scheduler runs on it and returns a schedule. *)
Lemma invalid_input_scheduled :
  greedy_schedule invalid_trains invalid_net =
  Ok [mkItem "T" "S1" (-3) (-13); mkItem "T" "S1" (-3) (-13)].
Proof. reflexivity. Qed.

(** A witness for [greedy_total_without_validation] on the invalid input. *)
Lemma greedy_total_without_validation_witness :
  routes_known invalid_net invalid_trains ∧
  ∃ res, greedy_schedule invalid_trains invalid_net = Ok res.
Proof.
  split; [exact invalid_routes_known|].
  exact (proj1 (greedy_total_without_validation invalid_trains invalid_net)
           invalid_routes_known).
Defined.

(* ------------------------------------------------------------------ *)
(** ** Hold application *)

(** The position of the last train of [l] carrying the id [tid]. *)
Fixpoint last_index (tid : string) (l : list TrainRequest) : option nat :=
  match l with
  | [] => None
  | t :: rest =>
      match last_index tid rest with
      | Some j => Some (S j)
      | None => if String.eqb (t_id t) tid then Some O else None
      end
  end.

Lemma index_by_id_lookup (l : list TrainRequest) (i0 : nat) (m : gmap string nat)
  (tid : string) :
  index_by_id i0 l m !! tid =
  match last_index tid l with Some j => Some (i0 + j)%nat | None => m !! tid end.
Proof.
  revert i0 m. induction l as [|t l IH]; intros i0 m; simpl; [done|].
  rewrite IH. destruct (last_index tid l) as [j|].
  - f_equal. lia.
  - rewrite lookup_insert. destruct (String.eqb_spec (t_id t) tid) as [->|Hne].
    + rewrite decide_True by done. f_equal. lia.
    + by rewrite decide_False.
Qed.

Lemma last_index_None (tid : string) (l : list TrainRequest) :
  last_index tid l = None -> ∀ j t', l !! j = Some t' -> t_id t' ≠ tid.
Proof.
  induction l as [|u l IH]; intros Hl j t' Hj; [by rewrite lookup_nil in Hj|].
  simpl in Hl. destruct (last_index tid l); [discriminate|].
  destruct j as [|j]; simpl in Hj.
  - injection Hj as <-. intros Hid. by rewrite (proj2 (String.eqb_eq _ _) Hid) in Hl.
  - by apply (IH eq_refl j).
Qed.

Lemma last_index_spec (l : list TrainRequest) (tid : string) (k : nat) :
  last_index tid l = Some k <->
  ∃ t, l !! k = Some t ∧ t_id t = tid ∧ last_with_id l k tid.
Proof.
  unfold last_with_id. revert k. induction l as [|t l IH]; intros k; simpl.
  - split; [discriminate|]. intros (t & Ht & _). by rewrite lookup_nil in Ht.
  - destruct (last_index tid l) as [j|] eqn:Hl.
    + split.
      * intros [= <-]. destruct (proj1 (IH j) eq_refl) as (t' & Ht' & Hid & Hlast).
        exists t'. split; [done|]. split; [done|].
        intros [|j'] t'' Hlt Hj'; [lia|]. simpl in Hj'. apply (Hlast j'); [lia | done].
      * intros (t' & Ht' & Hid & Hlast). destruct k as [|k].
        -- exfalso. destruct (proj1 (IH j) eq_refl) as (t'' & Ht'' & Hid' & _).
           apply (Hlast (S j) t''); [lia | done | done].
        -- assert (Some j = Some k) as [= ->]; [|done].
           apply IH. exists t'. split; [done|]. split; [done|].
           intros j' t'' Hlt Hj'. apply (Hlast (S j')); [lia | done].
    + pose proof (last_index_None tid l Hl) as Hnone.
      destruct (String.eqb_spec (t_id t) tid) as [Hid|Hne].
      * split.
        -- intros [= <-]. exists t. split; [done|]. split; [done|].
           intros [|j'] t'' Hlt Hj'; [lia|]. simpl in Hj'. by apply (Hnone j').
        -- intros (t' & Ht' & Hid' & _). destruct k as [|k]; [done|].
           exfalso. by apply (Hnone k t').
      * split; [discriminate|]. intros (t' & Ht' & Hid' & _). destruct k as [|k].
        -- injection Ht' as ->. done.
        -- exfalso. by apply (Hnone k t').
Qed.

Lemma set_planned_departure_id (t : TrainRequest) (pd : Z) :
  t_id (set_planned_departure t pd) = t_id t.
Proof. done. Qed.

Lemma total_hold_cons (h : HoldAdjustment) (hs : list HoldAdjustment) (tid : string) :
  total_hold (h :: hs) tid =
  (if String.eqb (h_train_id h) tid then add_seconds h else 0) + total_hold hs tid.
Proof.
  unfold total_hold. simpl. destruct (String.eqb (h_train_id h) tid); simpl; lia.
Qed.

(** The train at position [i] once the holds [hs] are applied. *)
Definition held (by_id : gmap string nat) (hs : list HoldAdjustment) (i : nat)
  (t : TrainRequest) : TrainRequest :=
  if bool_decide (by_id !! t_id t = Some i)
  then set_planned_departure t (planned_departure t + total_hold hs (t_id t))
  else t.

Lemma apply_holds_lookup (by_id : gmap string nat) (hs : list HoldAdjustment)
  (store : list TrainRequest) :
  (∀ tid k, by_id !! tid = Some k -> ∃ t, store !! k = Some t ∧ t_id t = tid) ->
  ∀ i, fold_left (apply_hold by_id) hs store !! i = held by_id hs i <$> store !! i.
Proof.
  revert store. induction hs as [|h hs IH]; intros store Hby i; simpl.
  - destruct (store !! i) as [t|]; simpl; [|done].
    unfold held. case_bool_decide; [|done].
    unfold total_hold; simpl. destruct t; unfold set_planned_departure; simpl.
    do 2 f_equal. lia.
  - rewrite IH.
    2: { intros tid k Hk. destruct (Hby tid k Hk) as (t & Ht & Hid).
         unfold apply_hold. destruct (by_id !! h_train_id h) as [k'|]; [|eauto].
         destruct (store !! k') as [d|] eqn:Hd; [|eauto].
         destruct (decide (k' = k)) as [->|Hne].
         - rewrite list_lookup_insert_eq by (by apply lookup_lt_Some in Hd).
           rewrite Ht in Hd. injection Hd as ->.
           eexists; split; [done|]. by rewrite set_planned_departure_id.
         - rewrite list_lookup_insert_ne by done. eauto. }
    unfold apply_hold.
    destruct (by_id !! h_train_id h) as [k|] eqn:Hk.
    + destruct (Hby _ _ Hk) as (d & Hd & Hid). rewrite Hd.
      destruct (decide (i = k)) as [->|Hik].
      * rewrite list_lookup_insert_eq by (by apply lookup_lt_Some in Hd).
        rewrite Hd. simpl. unfold held.
        rewrite set_planned_departure_id, Hid, !bool_decide_eq_true_2 by done.
        rewrite total_hold_cons, String.eqb_refl.
        destruct d; unfold set_planned_departure; simpl. do 2 f_equal. lia.
      * rewrite list_lookup_insert_ne by done.
        destruct (store !! i) as [t|]; simpl; [|done]. f_equal. unfold held.
        case_bool_decide as Hti; [|done].
        rewrite total_hold_cons. destruct (String.eqb_spec (h_train_id h) (t_id t)) as [He|];
          [|done].
        rewrite <- He, Hk in Hti. congruence.
    + destruct (store !! i) as [t|]; simpl; [|done]. f_equal. unfold held.
      case_bool_decide as Hti; [|done].
      rewrite total_hold_cons. destruct (String.eqb_spec (h_train_id h) (t_id t)) as [He|];
        [|done].
      rewrite <- He, Hk in Hti. congruence.
Qed.

Lemma apply_holds_length (by_id : gmap string nat) (hs : list HoldAdjustment)
  (store : list TrainRequest) :
  length (fold_left (apply_hold by_id) hs store) = length store.
Proof.
  revert store. induction hs as [|h hs IH]; intros store; simpl; [done|].
  rewrite IH. unfold apply_hold.
  destruct (by_id !! h_train_id h); [|done]. destruct (store !! n); [|done].
  apply length_insert.
Qed.

(** C10 (as the code has it): [/adjust] hands the scheduler the section
    dicts rebuilt field by field (an empty [block_windows] list becomes
    [None], which every scheduler treats like the empty list), and the
    trains in their order with only [planned_departure] changed: the
    train at position [i] gains the sum of [add_seconds] of the holds
    naming its id when it is the last train of the list with that id,
    and is unchanged otherwise. Holds naming no train change nothing. *)
Theorem adjust_holds_frame (secs : list Section_) (trains_in : list TrainRequest)
  (holds : list HoldAdjustment) :
  trains_in ≠ [] ->
  ∃ trains,
    adjust_inputs secs trains_in holds = Some (map section_of_dict secs, trains)
    ∧ length trains = length trains_in
    ∧ (∀ i t, trains_in !! i = Some t ->
         (last_with_id trains_in i (t_id t) ->
            trains !! i = Some (set_planned_departure t
                                  (planned_departure t + total_hold holds (t_id t))))
         ∧ (¬ last_with_id trains_in i (t_id t) -> trains !! i = Some t))
    ∧ (∀ s, s ∈ secs -> block_windows s ≠ Some [] -> section_of_dict s = s).
Proof.
  intros Hne.
  set (by_id := index_by_id 0 trains_in ∅).
  assert (Hby : ∀ tid k, by_id !! tid = Some k <-> last_index tid trains_in = Some k).
  { intros tid k. unfold by_id. rewrite index_by_id_lookup.
    destruct (last_index tid trains_in); simpl; [|rewrite lookup_empty]; split; congruence. }
  exists (fold_left (apply_hold by_id) holds trains_in).
  split; [by destruct trains_in|].
  split; [apply apply_holds_length|].
  split.
  - intros i t Hi.
    rewrite (apply_holds_lookup by_id holds trains_in); [|].
    2: { intros tid k Hk. apply Hby, last_index_spec in Hk as (t' & Ht' & Hid & _). eauto. }
    rewrite Hi. simpl. unfold held. split.
    + intros Hlast. rewrite bool_decide_eq_true_2; [done|].
      apply Hby, last_index_spec. eauto.
    + intros Hnl. rewrite bool_decide_eq_false_2; [done|].
      intros Hk. apply Hby, last_index_spec in Hk as (t' & Ht' & _ & Hlast).
      rewrite Hi in Ht'. injection Ht' as <-. done.
  - intros [] _ Hbw. unfold section_of_dict; simpl in *.
    destruct block_windows0 as [[|b bw]|]; done.
Qed.

(** A witness for [adjust_holds_frame]: two trains share the id A; a hold
    of 10 seconds on A and one on the unknown train Z. Only the second A
    (the last with its id) moves, from 5 to 15; the train B stays. *)
Lemma adjust_holds_frame_witness :
  adjust_inputs [] [mkTrain "A" 1 ["S1"] 0 None None; mkTrain "A" 1 ["S1"] 5 None None;
                    mkTrain "B" 1 ["S1"] 7 None None]
    [mkHold "A" 10; mkHold "Z" 99] =
  Some ([], [mkTrain "A" 1 ["S1"] 0 None None; mkTrain "A" 1 ["S1"] 15 None None;
             mkTrain "B" 1 ["S1"] 7 None None])
  ∧ ∃ trains,
    adjust_inputs [] [mkTrain "A" 1 ["S1"] 0 None None; mkTrain "A" 1 ["S1"] 5 None None;
                      mkTrain "B" 1 ["S1"] 7 None None]
      [mkHold "A" 10; mkHold "Z" 99] = Some (map section_of_dict [], trains)
    ∧ length trains = 3%nat.
Proof.
  split; [reflexivity|].
  destruct (adjust_holds_frame []
              [mkTrain "A" 1 ["S1"] 0 None None; mkTrain "A" 1 ["S1"] 5 None None;
               mkTrain "B" 1 ["S1"] 7 None None]
              [mkHold "A" 10; mkHold "Z" 99] ltac:(discriminate))
    as (trains & Heq & Hlen & _).
  exists trains. split; [exact Heq | exact Hlen].
Defined.

(** C10 counterexample: with two trains named A and a hold of 10 seconds
    on A, the first train named A keeps its planned departure 0. *)
Lemma adjust_duplicate_id_not_held :
  adjust_inputs [] [mkTrain "A" 1 ["S1"] 0 None None; mkTrain "A" 1 ["S1"] 5 None None]
    [mkHold "A" 10] =
  Some ([], [mkTrain "A" 1 ["S1"] 0 None None; mkTrain "A" 1 ["S1"] 15 None None]).
Proof. reflexivity. Qed.

(* ================================================================== *)
(** * Further properties of the scheduling core *)

(* ------------------------------------------------------------------ *)
(** ** [_find_earliest]: where it lands *)

(** A candidate entry that avoids every block window and clears every
    stored interval by the headway on both sides. *)
Definition feasible_entry (headway traverse : Z) (occ : list ScheduleItem)
  (blocks : list (Z * Z)) (x : Z) : Prop :=
  (∀ b, b ∈ blocks -> x + traverse <= b.1 ∨ b.2 <= x)
  ∧ (∀ cur, cur ∈ occ -> x + traverse + headway <= entry cur ∨ exit cur + headway <= x).

Lemma block_fold_skip (traverse : Z) (blocks : list (Z * Z)) (e0 : Z) (m0 : bool)
  (e' : Z) (m' : bool) :
  fold_left (block_step traverse) blocks (e0, m0) = (e', m') ->
  ∀ x, e0 <= x < e' -> ∃ b, b ∈ blocks ∧ ¬ (x + traverse <= b.1 ∨ b.2 <= x).
Proof.
  revert e0 m0. induction blocks as [|[b0 b1] blocks IH]; intros e0 m0; simpl.
  - intros [= -> ->] x Hx. lia.
  - destruct (Z.leb_spec (e0 + traverse) b0), (Z.leb_spec b1 e0); simpl;
      intros Hf x Hx.
    1-3: destruct (IH _ _ Hf x Hx) as (b & Hb & Hov); exists b; split; [set_solver | done].
    destruct (Z.lt_ge_cases x b1) as [Hlt|Hge].
    + exists (b0, b1). split; [set_solver | simpl; lia].
    + destruct (block_fold_spec _ _ _ _ _ _ Hf) as [Hle _].
      destruct (IH _ _ Hf x ltac:(lia)) as (b & Hb & Hov).
      exists b. split; [set_solver | done].
Qed.

Lemma occ_scan_skip (headway traverse : Z) (occ : list ScheduleItem) (n : nat) (e r : Z) :
  occ_scan n headway traverse occ e = Some r ->
  e <= r ∧
  ∀ x, e <= x < r -> ∃ cur, cur ∈ occ ∧
    ¬ (x + traverse + headway <= entry cur ∨ exit cur + headway <= x).
Proof.
  revert e. induction n as [|n IH]; intros e; simpl; [discriminate|].
  destruct (first_conflict e headway traverse occ) as [cur|] eqn:Hc.
  - intros Hr. destruct (IH _ Hr) as [Hle Hskip].
    assert (Hcur : cur ∈ occ ∧ ¬ (e + traverse + headway <= entry cur ∨ exit cur + headway <= e)).
    { clear -Hc. induction occ as [|y occ IHo]; simpl in Hc; [discriminate|].
      destruct (Z.leb_spec (e + traverse + headway) (entry y)),
               (Z.leb_spec (exit y + headway) e); simpl in Hc;
        try (destruct (IHo Hc); split; [set_solver | done]).
      injection Hc as <-. split; [set_solver | lia]. }
    destruct Hcur as [Hin Hov].
    split; [lia|]. intros x Hx.
    destruct (Z.lt_ge_cases x (exit cur + headway)) as [Hlt|Hge].
    + exists cur. split; [done | lia].
    + apply Hskip. lia.
  - intros [= <-]. split; [lia|]. intros x Hx. lia.
Qed.

Lemma find_loop_skip (headway traverse : Z) (occ : list ScheduleItem)
  (blocks : list (Z * Z)) (fo n : nat) (e r : Z) :
  find_loop n fo headway traverse occ blocks e = Some r ->
  e <= r ∧ ∀ x, e <= x < r -> ¬ feasible_entry headway traverse occ blocks x.
Proof.
  revert e. induction n as [|n IH]; intros e; simpl; [discriminate|].
  unfold block_pass. destruct (fold_left _ blocks (e, false)) as [e' moved] eqn:Hf.
  destruct (block_fold_spec _ _ _ _ _ _ Hf) as [Hle _].
  pose proof (block_fold_skip _ _ _ _ _ _ Hf) as Hbskip.
  intros Hr. assert (Hrest : e' <= r ∧ ∀ x, e' <= x < r ->
                       ¬ feasible_entry headway traverse occ blocks x).
  { destruct moved; [by apply IH|].
    destruct (occ_scan_skip _ _ _ _ _ _ Hr) as [Hle' Hskip].
    split; [done|]. intros x Hx [_ Hocc].
    destruct (Hskip x Hx) as (cur & Hin & Hov). by apply Hov, Hocc. }
  destruct Hrest as [Hle' Hskip]. split; [lia|]. intros x Hx.
  destruct (Z.lt_ge_cases x e') as [Hlt|Hge].
  - intros [Hbl _]. destruct (Hbskip x ltac:(lia)) as (b & Hb & Hov). by apply Hov, Hbl.
  - apply Hskip. lia.
Qed.

(** [_find_earliest] always returns an entry at or after [start] that
    clears every stored interval of the section by the headway on both
    sides ([e + D + H <= entry] or [e >= exit + H]). *)
Theorem find_earliest_sound (start headway traverse : Z) (occ : list ScheduleItem)
  (blocks : list (Z * Z)) :
  ∃ r, find_earliest start headway traverse occ blocks = Some r
       ∧ start <= r
       ∧ ∀ cur, cur ∈ occ -> r + traverse + headway <= entry cur ∨ exit cur + headway <= r.
Proof.
  destruct (find_earliest_some start headway traverse occ blocks) as [r Hr].
  exists r. split; [done|]. split.
  - unfold find_earliest in Hr. by apply find_loop_skip in Hr as [? _].
  - by eapply find_earliest_clear.
Qed.

(** [_find_earliest] never skips a usable slot: no entry between [start]
    and the returned one both avoids every block window and clears every
    stored interval by the headway. *)
Theorem find_earliest_no_earlier_feasible (start headway traverse : Z)
  (occ : list ScheduleItem) (blocks : list (Z * Z)) (r : Z) :
  find_earliest start headway traverse occ blocks = Some r ->
  ∀ x, start <= x < r -> ¬ feasible_entry headway traverse occ blocks x.
Proof. unfold find_earliest. intros Hr. by apply find_loop_skip in Hr as [_ ?]. Qed.

(** A witness: one stored interval [0, 100) with headway 20; a train of
    traverse 100 wanting to start at 50 lands at 120, and 100 is no
    feasible entry. *)
Lemma find_earliest_no_earlier_feasible_witness :
  find_earliest 50 20 100 [mkItem "A" "S1" 0 100] [] = Some 120
  ∧ ¬ feasible_entry 20 100 [mkItem "A" "S1" 0 100] [] 100.
Proof.
  split; [reflexivity|].
  exact (find_earliest_no_earlier_feasible 50 20 100 [mkItem "A" "S1" 0 100] []
           120 eq_refl 100 ltac:(lia)).
Defined.

(* ------------------------------------------------------------------ *)
(** ** [_insert_occupancy]: insertion after equal entries *)

Definition entry_le (a b : ScheduleItem) : Prop := entry a <= entry b.

(** [_insert_occupancy] puts the item right after every leading item
    whose entry is [<=] its own and right before the first one that
    starts later; nothing else moves. *)
Theorem insert_occupancy_position (occ : list ScheduleItem) (item : ScheduleItem) :
  ∃ pre post, occ = pre ++ post
    ∧ insert_occupancy occ item = pre ++ item :: post
    ∧ Forall (λ x, entry x <= entry item) pre
    ∧ (∀ y post', post = y :: post' -> entry item < entry y).
Proof.
  induction occ as [|x occ IH]; simpl.
  - exists [], []. repeat split; [constructor | by intros ?? ?].
  - destruct (Z.leb_spec (entry x) (entry item)) as [Hle|Hlt].
    + destruct IH as (pre & post & -> & -> & Hpre & Hpost).
      exists (x :: pre), post. repeat split; [by constructor | done].
    + exists [], (x :: occ). repeat split; [constructor|].
      intros y post' [= -> ->]. lia.
Qed.

Lemma insert_occupancy_perm (occ : list ScheduleItem) (item : ScheduleItem) :
  insert_occupancy occ item ≡ₚ item :: occ.
Proof.
  induction occ as [|x occ IH]; simpl; [done|].
  destruct (entry x <=? entry item); [|done].
  rewrite IH. constructor.
Qed.

Lemma insert_occupancy_HdRel (occ : list ScheduleItem) (item x : ScheduleItem) :
  entry x <= entry item -> HdRel entry_le x occ -> HdRel entry_le x (insert_occupancy occ item).
Proof.
  intros Hxi Hd. destruct occ as [|y occ]; simpl.
  - constructor. exact Hxi.
  - destruct (entry y <=? entry item); constructor; [by inversion Hd | exact Hxi].
Qed.

(** Kept sorted by entry, as the comment of [_insert_occupancy] says:
    inserting into a list sorted by entry gives a list sorted by entry
    holding the item and the old intervals. *)
Theorem insert_occupancy_sorted (occ : list ScheduleItem) (item : ScheduleItem) :
  Sorted entry_le occ ->
  Sorted entry_le (insert_occupancy occ item) ∧ insert_occupancy occ item ≡ₚ item :: occ.
Proof.
  intros Hs. split; [|apply insert_occupancy_perm].
  induction Hs as [|x occ Hs IH Hd]; simpl.
  - repeat constructor.
  - destruct (Z.leb_spec (entry x) (entry item)) as [Hle|Hlt].
    + constructor; [exact IH|]. by apply insert_occupancy_HdRel.
    + constructor; [by constructor|]. constructor. unfold entry_le. lia.
Qed.

Lemma insert_occupancy_sorted_witness :
  Sorted entry_le [mkItem "A" "S1" 0 100; mkItem "B" "S1" 200 300]
  ∧ Sorted entry_le (insert_occupancy [mkItem "A" "S1" 0 100; mkItem "B" "S1" 200 300]
                                      (mkItem "C" "S1" 120 180)).
Proof.
  assert (Hs : Sorted entry_le [mkItem "A" "S1" 0 100; mkItem "B" "S1" 200 300]).
  { repeat constructor; unfold entry_le; simpl; lia. }
  split; [exact Hs|].
  exact (proj1 (insert_occupancy_sorted _ (mkItem "C" "S1" 120 180) Hs)).
Defined.

(* ------------------------------------------------------------------ *)
(** ** The priority order of the greedy scheduler *)

(** Equal sort keys [(-priority, planned_departure)]. *)
Definition key_eq (a b : TrainRequest) : bool :=
  (priority a =? priority b) && (planned_departure a =? planned_departure b).

Lemma key_le_total (a b : TrainRequest) : key_le a b = false -> key_le b a = true.
Proof.
  unfold key_le. intros H.
  apply orb_false_iff in H as [H1 H2]. apply Z.ltb_ge in H1.
  destruct (Z.eqb_spec (- priority a) (- priority b)) as [He|He]; simpl in H2.
  - apply Z.leb_gt in H2. apply orb_true_iff. right.
    apply andb_true_iff. split; [apply Z.eqb_eq; lia | apply Z.leb_le; lia].
  - apply orb_true_iff. left. apply Z.ltb_lt. lia.
Qed.

Lemma insert_sorted_split (x : TrainRequest) (l : list TrainRequest) :
  ∃ pre post, l = pre ++ post ∧ insert_sorted x l = pre ++ x :: post
    ∧ Forall (λ u, key_le x u = false) pre.
Proof.
  induction l as [|u l IH]; simpl.
  - by exists [], [].
  - destruct (key_le x u) eqn:Hxu.
    + by exists [], (u :: l).
    + destruct IH as (pre & post & -> & -> & Hpre).
      exists (u :: pre), post. repeat split; by constructor.
Qed.

Lemma insert_sorted_HdRel (x u : TrainRequest) (l : list TrainRequest) :
  key_le u x = true -> HdRel (λ a b, key_le a b = true) u l ->
  HdRel (λ a b, key_le a b = true) u (insert_sorted x l).
Proof.
  intros Hux Hd. destruct l as [|v l]; simpl.
  - by constructor.
  - destruct (key_le x v); constructor; [done | by inversion Hd].
Qed.

Lemma insert_sorted_sorted (x : TrainRequest) (l : list TrainRequest) :
  Sorted (λ a b, key_le a b = true) l -> Sorted (λ a b, key_le a b = true) (insert_sorted x l).
Proof.
  induction 1 as [|u l Hs IH Hd]; simpl; [repeat constructor|].
  destruct (key_le x u) eqn:Hxu.
  - constructor; [by constructor | by constructor].
  - constructor; [exact IH|]. apply insert_sorted_HdRel; [by apply key_le_total | done].
Qed.

Lemma insert_sorted_perm (x : TrainRequest) (l : list TrainRequest) :
  insert_sorted x l ≡ₚ x :: l.
Proof.
  destruct (insert_sorted_split x l) as (pre & post & -> & -> & _).
  symmetry. apply Permutation_middle.
Qed.

Lemma sort_trains_sorted (l : list TrainRequest) :
  Sorted (λ a b, key_le a b = true) (sort_trains l).
Proof. induction l; simpl; [constructor | by apply insert_sorted_sorted]. Qed.

(** [sorted(trains, key=lambda t: (-t.priority, t.planned_departure))]
    returns the trains themselves, each once, higher priority first and,
    at equal priority, earlier planned departure first. *)
Theorem sort_trains_sorted_perm (l : list TrainRequest) :
  sort_trains l ≡ₚ l ∧ Sorted (λ a b, key_le a b = true) (sort_trains l).
Proof.
  split; [|apply sort_trains_sorted].
  induction l as [|t l IH]; simpl; [done|].
  rewrite insert_sorted_perm, IH. done.
Qed.

Lemma key_eq_before (x u t : TrainRequest) :
  key_le x u = false -> key_eq x t = true -> key_eq u t = false.
Proof.
  unfold key_le, key_eq. intros H Hxt.
  apply andb_true_iff in Hxt as [Hp Hd]. apply Z.eqb_eq in Hp, Hd.
  apply orb_false_iff in H as [H1 H2]. apply Z.ltb_ge in H1.
  apply andb_false_iff.
  destruct (Z.eqb_spec (- priority x) (- priority u)) as [He|He]; simpl in H2.
  - apply Z.leb_gt in H2. right. apply Z.eqb_neq. lia.
  - left. apply Z.eqb_neq. lia.
Qed.

Lemma filter_key_eq_sorted_prefix (t x : TrainRequest) (pre : list TrainRequest) :
  key_eq x t = true -> Forall (λ u, key_le x u = false) pre ->
  List.filter (λ u, key_eq u t) pre = [].
Proof.
  intros Hx. induction 1 as [|u pre Hu _ IH]; simpl; [done|].
  by rewrite (key_eq_before x u t Hu Hx).
Qed.

(** The sort is stable, like Python's [sorted]: the trains sharing one
    sort key [(-priority, planned_departure)] come out in input order. *)
Theorem sort_trains_stable (l : list TrainRequest) (t : TrainRequest) :
  List.filter (λ u, key_eq u t) (sort_trains l) = List.filter (λ u, key_eq u t) l.
Proof.
  induction l as [|x l IH]; simpl; [done|].
  destruct (insert_sorted_split x (sort_trains l)) as (pre & post & Hl & -> & Hpre).
  rewrite <- IH, Hl, !List.filter_app. simpl.
  destruct (key_eq x t) eqn:Hx.
  - by rewrite (filter_key_eq_sorted_prefix t x pre Hx Hpre).
  - done.
Qed.

(* ------------------------------------------------------------------ *)
(** ** The greedy run: one block of legs per train *)

(** The legs of one train in route order: each starts at or after the
    previous exit plus that section's headway (for the first leg: at or
    after [pe]) and lasts its section's traverse time. *)
Fixpoint legs_ok (net : NetworkModel) (pe : Z) (blk : list ScheduleItem) : Prop :=
  match blk with
  | [] => True
  | x :: rest =>
      pe <= entry x
      ∧ ∃ sec, section_by_id net (section_id x) = Ok sec
               ∧ exit x = entry x + traverse_seconds sec
               ∧ legs_ok net (exit x + headway_seconds sec) rest
  end.

(** The items a train contributes: one per route section, in route
    order, all carrying the train's id, none before its planned
    departure, chained by the headways. *)
Definition train_block (net : NetworkModel) (t : TrainRequest) (blk : list ScheduleItem) : Prop :=
  map section_id blk = route_sections t
  ∧ Forall (λ x, train_id x = t_id t) blk
  ∧ Forall (λ x, planned_departure t <= entry x) blk
  ∧ legs_ok net (planned_departure t) blk.

Lemma find_earliest_ge (start headway traverse : Z) (occ : list ScheduleItem)
  (blocks : list (Z * Z)) (r : Z) :
  find_earliest start headway traverse occ blocks = Some r -> start <= r.
Proof. unfold find_earliest. intros Hr. by apply find_loop_skip in Hr as [? _]. Qed.

Lemma schedule_leg_shape (net : NetworkModel) (t : TrainRequest) (st st' : GState)
  (pe pe' : Z) (sid : string) :
  schedule_leg net t st pe sid = Ok (st', pe') ->
  ∃ x sec, result_items st' = result_items st ++ [x]
    ∧ section_id x = sid ∧ train_id x = t_id t
    ∧ section_by_id net sid = Ok sec
    ∧ Z.max pe (planned_departure t) <= entry x
    ∧ exit x = entry x + traverse_seconds sec
    ∧ pe' = exit x + headway_seconds sec.
Proof.
  unfold schedule_leg.
  destruct (section_by_id net sid) as [sec|] eqn:Hsec; [|discriminate].
  cbn -[find_earliest].
  destruct (occupancy st !! sid) as [occ_sid|]; [|discriminate].
  cbn -[find_earliest].
  destruct (find_earliest _ _ _ occ_sid _) as [e|] eqn:He; [|discriminate].
  simpl. intros [= <- <-].
  apply find_earliest_ge in He.
  eexists _, sec. simpl. repeat split; try done.
Qed.

Lemma schedule_route_shape (net : NetworkModel) (t : TrainRequest) (route : list string)
  (st st' : GState) (pe : Z) :
  schedule_route net t route st pe = Ok st' ->
  ∃ blk, result_items st' = result_items st ++ blk
    ∧ map section_id blk = route
    ∧ Forall (λ x, train_id x = t_id t) blk
    ∧ Forall (λ x, planned_departure t <= entry x) blk
    ∧ legs_ok net pe blk.
Proof.
  revert st pe. induction route as [|sid route IH]; intros st pe; simpl.
  - intros [= <-]. exists []. rewrite app_nil_r. repeat split; constructor.
  - destruct (schedule_leg net t st pe sid) as [[st1 pe1]|] eqn:Hleg; [|discriminate].
    simpl. intros Hr.
    destruct (schedule_leg_shape _ _ _ _ _ _ _ Hleg)
      as (x & sec & Hst1 & Hsid & Htid & Hsec & Hge & Hexit & ->).
    destruct (IH _ _ Hr) as (blk & Hst' & Hmap & Hids & Hpd & Hlegs).
    exists (x :: blk). rewrite Hst', Hst1, <- app_assoc. simpl.
    repeat split.
    + by rewrite Hsid, Hmap.
    + by constructor.
    + constructor; [lia | done].
    + lia.
    + exists sec. by rewrite Hsid.
Qed.

Lemma schedule_all_shape (net : NetworkModel) (ts : list TrainRequest) (st st' : GState) :
  schedule_all net ts st = Ok st' ->
  ∃ blocks, result_items st' = result_items st ++ concat blocks
    ∧ Forall2 (train_block net) ts blocks.
Proof.
  revert st. induction ts as [|t ts IH]; intros st; simpl.
  - intros [= <-]. exists []. rewrite app_nil_r. split; [done | constructor].
  - destruct (schedule_route net t (route_sections t) st (planned_departure t))
      as [st1|] eqn:Hr; [|discriminate].
    simpl. intros Hall.
    destruct (schedule_route_shape _ _ _ _ _ _ Hr) as (blk & Hst1 & Hmap & Hids & Hpd & Hlegs).
    destruct (IH _ Hall) as (blocks & Hst' & Hf).
    exists (blk :: blocks). rewrite Hst', Hst1, <- app_assoc. split; [done|].
    constructor; [|done]. repeat split; done.
Qed.

(** The greedy schedule is the concatenation, in priority order, of one
    block per train: the block follows the train's route section by
    section, carries its id, starts no leg before its planned departure,
    and starts each leg at or after the previous exit plus the headway
    of the previous section, each leg lasting its traverse time. *)
Theorem greedy_schedule_blocks (trains : list TrainRequest) (net : NetworkModel)
  (res : list ScheduleItem) :
  greedy_schedule trains net = Ok res ->
  ∃ blocks, res = concat blocks ∧ Forall2 (train_block net) (sort_trains trains) blocks.
Proof.
  unfold greedy_schedule.
  destruct (schedule_all net (sort_trains trains) (mkGState (init_occupancy net) []))
    as [st|] eqn:Hall; [|discriminate].
  simpl. intros [= <-].
  destruct (schedule_all_shape _ _ _ _ Hall) as (blocks & Hst & Hf).
  exists blocks. split; [exact Hst | exact Hf].
Qed.

Lemma greedy_schedule_blocks_witness :
  greedy_schedule scenarioA_trains scenarioA_net =
    Ok [mkItem "T2" "S1" 60 160; mkItem "T1" "S1" 280 380]
  ∧ ∃ blocks, [mkItem "T2" "S1" 60 160; mkItem "T1" "S1" 280 380] = concat blocks
      ∧ Forall2 (train_block scenarioA_net) (sort_trains scenarioA_trains) blocks.
Proof.
  split; [reflexivity|].
  exact (greedy_schedule_blocks scenarioA_trains scenarioA_net _ eq_refl).
Defined.

Lemma schedule_route_known (net : NetworkModel) (t : TrainRequest) (route : list string)
  (st st' : GState) (pe : Z) :
  schedule_route net t route st pe = Ok st' ->
  ∀ sid, sid ∈ route -> is_Some (find_section (sections net) sid).
Proof.
  revert st pe. induction route as [|sid route IH]; intros st pe; simpl.
  - intros _ sid Hs. by apply elem_of_nil in Hs.
  - destruct (schedule_leg net t st pe sid) as [[st1 pe1]|] eqn:Hleg; [|discriminate].
    simpl. intros Hr sid' Hs. apply elem_of_cons in Hs as [->|Hs]; [|by eapply IH].
    revert Hleg. unfold schedule_leg, section_by_id, of_option.
    destruct (find_section (sections net) sid); [eauto | discriminate].
Qed.

Lemma schedule_all_known (net : NetworkModel) (ts : list TrainRequest) (st st' : GState) :
  schedule_all net ts st = Ok st' -> routes_known net ts.
Proof.
  revert st. induction ts as [|t ts IH]; intros st; simpl.
  - intros _ t' sid Ht. by apply elem_of_nil in Ht.
  - destruct (schedule_route net t (route_sections t) st (planned_departure t))
      as [st1|] eqn:Hr; [|discriminate].
    simpl. intros Hall t' sid Ht' Hsid.
    apply elem_of_cons in Ht' as [->|Ht']; [by eapply schedule_route_known|].
    by apply (IH _ Hall t').
Qed.

(** The greedy scheduler raises exactly when some train's route names a
    section that is not in the network. *)
Theorem greedy_error_iff_unknown_section (trains : list TrainRequest) (net : NetworkModel) :
  (∃ e, greedy_schedule trains net = Err e) <-> ¬ routes_known net trains.
Proof.
  unfold greedy_schedule. split.
  - intros [e He] Hk.
    destruct (schedule_all_ok net (sort_trains trains) (mkGState (init_occupancy net) []))
      as [st Hst].
    + apply ginv_init.
    + intros t sid Ht. apply Hk. by apply elem_of_sort_trains.
    + rewrite Hst in He. discriminate.
  - intros Hk.
    destruct (schedule_all net (sort_trains trains) (mkGState (init_occupancy net) []))
      as [st|e] eqn:Hall; simpl; [|eauto].
    exfalso. apply Hk. intros t sid Ht.
    apply (schedule_all_known _ _ _ _ Hall t). by apply elem_of_sort_trains.
Qed.

(* ------------------------------------------------------------------ *)
(** ** The greedy run: a train ranked last *)

Lemma insert_sorted_app_last (x u : TrainRequest) (l : list TrainRequest) :
  key_le x u = true -> insert_sorted x (l ++ [u]) = insert_sorted x l ++ [u].
Proof.
  intros Hxu. induction l as [|v l IH]; simpl.
  - by rewrite Hxu.
  - destruct (key_le x v); [done|]. by rewrite IH.
Qed.

Lemma sort_trains_app_last (l : list TrainRequest) (u : TrainRequest) :
  (∀ t, t ∈ l -> key_le t u = true) -> sort_trains (l ++ [u]) = sort_trains l ++ [u].
Proof.
  induction l as [|t l IH]; intros Hl; simpl; [done|].
  rewrite IH by set_solver. apply insert_sorted_app_last. apply Hl. set_solver.
Qed.

Lemma schedule_all_app (net : NetworkModel) (ts1 ts2 : list TrainRequest) (st : GState) :
  schedule_all net (ts1 ++ ts2) st = (st1 ← schedule_all net ts1 st; schedule_all net ts2 st1).
Proof.
  revert st. induction ts1 as [|t ts1 IH]; intros st; simpl; [done|].
  destruct (schedule_route net t (route_sections t) st (planned_departure t)); simpl; [|done].
  apply IH.
Qed.

(** Adding a train that ranks after every other one (lower priority, or
    equal priority and a departure not earlier) leaves the schedule of
    the others unchanged: the new train's block is appended at the end. *)
Theorem greedy_append_last_ranked (trains : list TrainRequest) (u : TrainRequest)
  (net : NetworkModel) (res : list ScheduleItem) :
  (∀ t, t ∈ trains -> key_le t u = true) ->
  (∀ sid, sid ∈ route_sections u -> is_Some (find_section (sections net) sid)) ->
  greedy_schedule trains net = Ok res ->
  ∃ blk, greedy_schedule (trains ++ [u]) net = Ok (res ++ blk) ∧ train_block net u blk.
Proof.
  intros Hlast Hk. unfold greedy_schedule.
  rewrite sort_trains_app_last by done. rewrite schedule_all_app.
  destruct (schedule_all net (sort_trains trains) (mkGState (init_occupancy net) []))
    as [st|] eqn:Hall; [|discriminate].
  simpl. intros [= <-].
  assert (Hinv : GInv net st) by (eapply schedule_all_inv; [apply ginv_init | exact Hall]).
  destruct (schedule_route_ok net u (route_sections u) st (planned_departure u) Hinv Hk)
    as [st1 Hr].
  rewrite Hr. simpl.
  destruct (schedule_route_shape _ _ _ _ _ _ Hr) as (blk & Hst1 & Hmap & Hids & Hpd & Hlegs).
  exists blk. rewrite Hst1. split; [done|]. repeat split; done.
Qed.

(** A witness: a train T3 of priority 0 added to Scenario A. *)
Lemma greedy_append_last_ranked_witness :
  greedy_schedule (scenarioA_trains ++ [mkTrain "T3" 0 ["S1"] 0 None None]) scenarioA_net =
    Ok [mkItem "T2" "S1" 60 160; mkItem "T1" "S1" 280 380; mkItem "T3" "S1" 500 600]
  ∧ ∃ blk, greedy_schedule (scenarioA_trains ++ [mkTrain "T3" 0 ["S1"] 0 None None])
             scenarioA_net = Ok ([mkItem "T2" "S1" 60 160; mkItem "T1" "S1" 280 380] ++ blk)
      ∧ train_block scenarioA_net (mkTrain "T3" 0 ["S1"] 0 None None) blk.
Proof.
  split; [reflexivity|].
  apply (greedy_append_last_ranked scenarioA_trains (mkTrain "T3" 0 ["S1"] 0 None None)
           scenarioA_net [mkItem "T2" "S1" 60 160; mkItem "T1" "S1" 280 380]).
  - intros t Ht. unfold scenarioA_trains in Ht.
    repeat (apply elem_of_cons in Ht as [->|Ht]); [..|by apply elem_of_nil in Ht]; reflexivity.
  - intros sid Hs. apply elem_of_cons in Hs as [->|Hs]; [|by apply elem_of_nil in Hs].
    simpl. eauto.
  - reflexivity.
Defined.

(* ------------------------------------------------------------------ *)
(** ** [lateness_kpis]: bounds and the per-train lateness *)

(** What the loop of [lateness_kpis] records for one train, if
    anything: [max(0, entries[0] - t.due_time)] on its last section. *)
Definition lateness_value (items : list ScheduleItem) (t : TrainRequest) : option Z :=
  match due_time t, last (route_sections t) with
  | Some due, Some last_sid =>
      match entries_on items (t_id t) last_sid with
      | e0 :: _ => Some (Z.max 0 (e0 - due))
      | [] => None
      end
  | _, _ => None
  end.

Lemma lateness_step_lookup_ne (items : list ScheduleItem) (m : gmap string Z)
  (t : TrainRequest) (tid : string) :
  t_id t ≠ tid -> lateness_step items m t !! tid = m !! tid.
Proof.
  intros Hne. unfold lateness_step.
  destruct (due_time t), (last (route_sections t)); try done.
  destruct (entries_on items (t_id t) s); [done|].
  by rewrite lookup_insert_ne.
Qed.

Lemma lateness_step_lookup_eq (items : list ScheduleItem) (m : gmap string Z)
  (t : TrainRequest) :
  lateness_step items m t !! t_id t =
  match lateness_value items t with Some v => Some v | None => m !! t_id t end.
Proof.
  unfold lateness_step, lateness_value.
  destruct (due_time t), (last (route_sections t)); try done.
  destruct (entries_on items (t_id t) s); [done|].
  by rewrite lookup_insert_eq.
Qed.

Lemma lateness_fold_other (items : list ScheduleItem) (ts : list TrainRequest)
  (m : gmap string Z) (tid : string) :
  tid ∉ map t_id ts -> fold_left (lateness_step items) ts m !! tid = m !! tid.
Proof.
  revert m. induction ts as [|t ts IH]; intros m Hnot; simpl; [done|].
  rewrite IH by set_solver. apply lateness_step_lookup_ne. set_solver.
Qed.

Lemma lateness_fold_unique (items : list ScheduleItem) (ts : list TrainRequest)
  (m : gmap string Z) (t : TrainRequest) :
  NoDup (map t_id ts) -> t ∈ ts -> m !! t_id t = None ->
  fold_left (lateness_step items) ts m !! t_id t = lateness_value items t.
Proof.
  revert m. induction ts as [|t0 ts IH]; intros m Hnd Ht Hm; simpl;
    [by apply elem_of_nil in Ht|].
  simpl in Hnd. apply NoDup_cons in Hnd as [Hnot Hnd].
  apply elem_of_cons in Ht as [->|Ht].
  - rewrite lateness_fold_other by done. rewrite lateness_step_lookup_eq.
    by destruct (lateness_value items t0).
  - assert (Hne : t_id t0 ≠ t_id t).
    { intros Heq. apply Hnot. rewrite Heq. by apply list_elem_of_fmap_2. }
    apply IH; [done | done |]. by rewrite lateness_step_lookup_ne.
Qed.

(** With distinct train ids, the [lateness_by_train] dict holds exactly
    the per-train lateness [max(0, first entry on the last route section
    - due_time)] of the trains that have a due time, a non-empty route
    and an item on their last section, and nothing for any other id. *)
Theorem lateness_by_train_unique_ids (items : list ScheduleItem)
  (trains : list TrainRequest) :
  NoDup (map t_id trains) ->
  (∀ t, t ∈ trains -> lateness_by_train items trains !! t_id t = lateness_value items t)
  ∧ (∀ tid, tid ∉ map t_id trains -> lateness_by_train items trains !! tid = None).
Proof.
  intros Hnd. unfold lateness_by_train. split.
  - intros t Ht. apply lateness_fold_unique; [done | done | apply lookup_empty].
  - intros tid Hnot. rewrite lateness_fold_other by done. apply lookup_empty.
Qed.

(** A witness: T1 (due 200) enters its last section at 260, T2 has no
    due time. *)
Lemma lateness_by_train_unique_ids_witness :
  NoDup (map t_id [mkTrain "T1" 1 ["S1"] 0 None (Some 200); mkTrain "T2" 1 ["S1"] 0 None None])
  ∧ lateness_by_train [mkItem "T1" "S1" 260 360; mkItem "T2" "S1" 400 500]
      [mkTrain "T1" 1 ["S1"] 0 None (Some 200); mkTrain "T2" 1 ["S1"] 0 None None] !! "T1"
    = Some 60.
Proof.
  assert (Hnd : NoDup (map t_id [mkTrain "T1" 1 ["S1"] 0 None (Some 200);
                                 mkTrain "T2" 1 ["S1"] 0 None None])).
  { simpl. repeat constructor; set_solver. }
  split; [exact Hnd|].
  exact (proj1 (lateness_by_train_unique_ids [mkItem "T1" "S1" 260 360; mkItem "T2" "S1" 400 500]
                  _ Hnd) (mkTrain "T1" 1 ["S1"] 0 None (Some 200)) ltac:(set_solver)).
Defined.

Lemma lateness_fold_nonneg (items : list ScheduleItem) (ts : list TrainRequest)
  (m : gmap string Z) :
  (∀ k v, m !! k = Some v -> 0 <= v) ->
  ∀ k v, fold_left (lateness_step items) ts m !! k = Some v -> 0 <= v.
Proof.
  revert m. induction ts as [|t ts IH]; intros m Hm; simpl; [done|].
  apply IH. intros k v. unfold lateness_step.
  destruct (due_time t), (last (route_sections t)); try apply Hm.
  destruct (entries_on items (t_id t) s); [apply Hm|].
  rewrite lookup_insert. case_decide; [intros [= <-]; lia | apply Hm].
Qed.

Lemma lateness_values_nonneg (items : list ScheduleItem) (trains : list TrainRequest) :
  Forall (λ v, 0 <= v) (map snd (map_to_list (lateness_by_train items trains))).
Proof.
  apply Forall_forall. intros v Hv.
  apply list_elem_of_fmap in Hv as ([k v'] & -> & Hkv). simpl.
  apply elem_of_map_to_list in Hkv.
  eapply lateness_fold_nonneg; [|exact Hkv].
  intros ??. by rewrite lookup_empty.
Qed.

Lemma foldr_add_nonneg (vs : list Z) : Forall (λ v, 0 <= v) vs -> 0 <= foldr Z.add 0 vs.
Proof. induction 1; simpl; lia. Qed.

Lemma count_within_le_length (tol : Z) (vs : list Z) :
  0 <= count_within tol vs <= Z.of_nat (length vs).
Proof.
  unfold count_within. split; [lia|]. apply inj_le.
  induction vs as [|v vs IH]; simpl; [lia|].
  destruct (v <=? tol); simpl; lia.
Qed.

(** The KPIs of [lateness_kpis] stay in range for every input: [otp_end]
    is a percentage in [0, 100], and the average lateness is
    non-negative and at most the total lateness. *)
Theorem lateness_kpis_bounds (items : list ScheduleItem) (trains : list TrainRequest)
  (tol : Z) :
  let k := lateness_kpis items trains tol in
  (0 <= otp_end k <= 100)%Q ∧ (0 <= avg_lateness k <= total_lateness k)%Q.
Proof.
  unfold lateness_kpis.
  destruct items as [|it items]; [split; split; discriminate|].
  destruct trains as [|t trains]; [split; split; discriminate|].
  pose proof (lateness_values_nonneg (it :: items) (t :: trains)) as Hnn.
  set (vs := map snd (map_to_list (lateness_by_train (it :: items) (t :: trains)))) in *.
  pose proof (count_within_le_length tol vs) as Hc.
  pose proof (foldr_add_nonneg vs Hnn) as Htot.
  destruct (length vs) as [|n] eqn:Hlen; [split; split; discriminate|].
  simpl. unfold Qle; simpl.
  rewrite !Zpos_P_of_succ_nat. rewrite Nat2Z.inj_succ in Hc. split; split; nia.
Qed.

(** [otp_end] is 100 as soon as the tolerance covers the lateness of
    every train in [lateness_by_train] and that dict is not empty. *)
Theorem otp_end_full_when_tolerance_covers (items : list ScheduleItem)
  (trains : list TrainRequest) (tol : Z) :
  lateness_by_train items trains ≠ ∅ ->
  (∀ tid v, lateness_by_train items trains !! tid = Some v -> v <= tol) ->
  otp_end (lateness_kpis items trains tol) == 100.
Proof.
  intros Hne Hcov. unfold lateness_kpis.
  destruct items as [|it items].
  { exfalso. apply Hne. unfold lateness_by_train.
    assert (Hid : ∀ ts m, fold_left (lateness_step []) ts m = m).
    { induction ts as [|t ts IH]; intros m; simpl; [done|].
      rewrite IH. unfold lateness_step.
      by destruct (due_time t), (last (route_sections t)). }
    apply Hid. }
  destruct trains as [|t trains]; [by destruct Hne|].
  set (m := lateness_by_train (it :: items) (t :: trains)) in *.
  assert (Hall : List.filter (λ v, v <=? tol) (map snd (map_to_list m))
                 = map snd (map_to_list m)).
  { apply List.forallb_filter_id. apply forallb_forall. intros v Hv.
    apply list_elem_of_In in Hv.
    apply list_elem_of_fmap in Hv as ([k v'] & -> & Hkv). simpl.
    apply elem_of_map_to_list in Hkv. apply Z.leb_le. eapply Hcov. exact Hkv. }
  unfold count_within. rewrite Hall.
  destruct (length (map snd (map_to_list m))) as [|n] eqn:Hlen.
  - exfalso. apply Hne. apply length_zero_iff_nil in Hlen.
    apply map_eq_nil in Hlen. by apply map_to_list_empty_iff.
  - unfold Qeq; simpl. rewrite Zpos_P_of_succ_nat. lia.
Qed.

(** A witness: one train due at 200 entering its last section at 260
    (lateness 60), at tolerance 60. *)
Lemma otp_end_full_when_tolerance_covers_witness :
  lateness_by_train [mkItem "T1" "S1" 260 360] [mkTrain "T1" 1 ["S1"] 0 None (Some 200)] ≠ ∅
  ∧ otp_end (lateness_kpis [mkItem "T1" "S1" 260 360]
               [mkTrain "T1" 1 ["S1"] 0 None (Some 200)] 60) == 100.
Proof.
  assert (Hm : lateness_by_train [mkItem "T1" "S1" 260 360]
                 [mkTrain "T1" 1 ["S1"] 0 None (Some 200)] = {[ "T1" := 60 ]}).
  { reflexivity. }
  split.
  - rewrite Hm. apply map_non_empty_singleton.
  - apply otp_end_full_when_tolerance_covers.
    + rewrite Hm. apply map_non_empty_singleton.
    + intros tid v. rewrite Hm, lookup_singleton_Some. intros [_ <-]. lia.
Defined.

(* ------------------------------------------------------------------ *)
(** ** [/adjust]: how holds combine *)

Lemma index_by_id_valid (trains : list TrainRequest) (tid : string) (k : nat) :
  index_by_id 0 trains ∅ !! tid = Some k -> ∃ t, trains !! k = Some t ∧ t_id t = tid.
Proof.
  rewrite index_by_id_lookup.
  destruct (last_index tid trains) as [j|] eqn:Hl; [|by rewrite lookup_empty].
  intros [= <-]. apply last_index_spec in Hl as (t & Ht & Hid & _). eauto.
Qed.

Lemma adjust_store_lookup (trains : list TrainRequest) (hs : list HoldAdjustment) (i : nat) :
  fold_left (apply_hold (index_by_id 0 trains ∅)) hs trains !! i =
  held (index_by_id 0 trains ∅) hs i <$> trains !! i.
Proof. apply apply_holds_lookup. intros tid k. apply index_by_id_valid. Qed.

Lemma set_planned_departure_same (t : TrainRequest) :
  set_planned_departure t (planned_departure t) = t.
Proof. by destruct t. Qed.

Lemma total_hold_zero (hs : list HoldAdjustment) (tid : string) :
  (∀ h, h ∈ hs -> add_seconds h = 0) -> total_hold hs tid = 0.
Proof.
  induction hs as [|h hs IH]; intros Hz; [done|].
  rewrite total_hold_cons, IH by set_solver.
  destruct (String.eqb (h_train_id h) tid); [|done]. rewrite Hz by set_solver. done.
Qed.

Lemma total_hold_perm (hs hs' : list HoldAdjustment) (tid : string) :
  hs ≡ₚ hs' -> total_hold hs tid = total_hold hs' tid.
Proof.
  induction 1 as [|h hs hs' _ IH|h1 h2 hs|hs1 hs2 hs3 _ IH1 _ IH2].
  - done.
  - by rewrite !total_hold_cons, IH.
  - rewrite !total_hold_cons. lia.
  - by rewrite IH1, IH2.
Qed.

(** Holds of zero seconds change nothing: [/adjust] schedules exactly
    what it schedules with no holds, whatever the solver. *)
Theorem adjust_zero_holds_identity
  (milp : NetworkModel -> list TrainRequest -> result (list ScheduleItem))
  (secs : list Section_) (trains_in : list TrainRequest) (holds : list HoldAdjustment)
  (solver : string) :
  (∀ h, h ∈ holds -> add_seconds h = 0) ->
  adjust_schedule milp secs trains_in holds solver = adjust_schedule milp secs trains_in [] solver.
Proof.
  intros Hz. unfold adjust_schedule, adjust_inputs.
  destruct trains_in as [|t0 ts]; [done|].
  set (tr := t0 :: ts).
  replace (fold_left (apply_hold (index_by_id 0 tr ∅)) holds tr) with tr; [done|].
  apply list_eq. intros i. rewrite adjust_store_lookup.
  destruct (tr !! i) as [t|]; simpl; [|done]. f_equal. unfold held.
  case_bool_decide; [|done]. rewrite total_hold_zero by done.
  rewrite Z.add_0_r. symmetry. apply set_planned_departure_same.
Qed.

(** A witness: a zero hold on the train of Scenario A's T1. *)
Lemma adjust_zero_holds_identity_witness :
  (∀ h, h ∈ [mkHold "T1" 0] -> add_seconds h = 0)
  ∧ adjust_schedule (λ _ _, Ok []) (sections scenarioA_net) scenarioA_trains [mkHold "T1" 0] "greedy"
    = adjust_schedule (λ _ _, Ok []) (sections scenarioA_net) scenarioA_trains [] "greedy".
Proof.
  assert (Hz : ∀ h, h ∈ [mkHold "T1" 0] -> add_seconds h = 0).
  { intros h Hh. apply list_elem_of_singleton in Hh as ->. done. }
  split; [exact Hz|]. exact (adjust_zero_holds_identity _ _ _ _ "greedy" Hz).
Defined.

Lemma map_t_id_insert (l : list TrainRequest) (i : nat) (x d : TrainRequest) :
  l !! i = Some d -> t_id x = t_id d -> map t_id (<[i := x]> l) = map t_id l.
Proof.
  revert i. induction l as [|a l IH]; intros [|i]; simpl; try discriminate.
  - intros [= ->] Hid. by rewrite Hid.
  - intros Hl Hid. by rewrite (IH i Hl Hid).
Qed.

Lemma apply_hold_ids (by_id : gmap string nat) (store : list TrainRequest)
  (h : HoldAdjustment) :
  map t_id (apply_hold by_id store h) = map t_id store.
Proof.
  unfold apply_hold. destruct (by_id !! h_train_id h) as [i|]; [|done].
  destruct (store !! i) as [d|] eqn:Hd; [|done].
  by apply (map_t_id_insert _ _ _ d).
Qed.

Lemma apply_holds_ids (by_id : gmap string nat) (hs : list HoldAdjustment)
  (store : list TrainRequest) :
  map t_id (fold_left (apply_hold by_id) hs store) = map t_id store.
Proof.
  revert store. induction hs as [|h hs IH]; intros store; simpl; [done|].
  by rewrite IH, apply_hold_ids.
Qed.

Lemma index_by_id_ids (i : nat) (l l' : list TrainRequest) (m : gmap string nat) :
  map t_id l = map t_id l' -> index_by_id i l m = index_by_id i l' m.
Proof.
  revert i l' m. induction l as [|t l IH]; intros i [|t' l'] m; simpl; try done.
  intros [= Hid Hids]. rewrite Hid. by apply IH.
Qed.

Lemma section_of_dict_idem (s : Section_) : section_of_dict (section_of_dict s) = section_of_dict s.
Proof. destruct s as [? ? ? [[|??]|] ? ? ?]; done. Qed.

Lemma adjust_inputs_some (secs : list Section_) (trains_in : list TrainRequest)
  (holds : list HoldAdjustment) :
  trains_in ≠ [] ->
  adjust_inputs secs trains_in holds =
  Some (map section_of_dict secs, fold_left (apply_hold (index_by_id 0 trains_in ∅)) holds trains_in).
Proof. by destruct trains_in. Qed.

(** Holds compose: applying [h2] to the trains as adjusted by [h1]
    (the same state with the new planned departures) gives the same
    scheduler input as applying [h1 ++ h2] to the original state. *)
Theorem adjust_holds_two_batches (secs : list Section_) (trains_in : list TrainRequest)
  (h1 h2 : list HoldAdjustment) (secs' : list Section_) (trains' : list TrainRequest) :
  adjust_inputs secs trains_in h1 = Some (secs', trains') ->
  adjust_inputs secs' trains' h2 = adjust_inputs secs trains_in (h1 ++ h2).
Proof.
  intros H.
  assert (Hne : trains_in ≠ []) by (intros ->; discriminate).
  rewrite adjust_inputs_some in H by done. injection H as <- <-.
  pose proof (apply_holds_ids (index_by_id 0 trains_in ∅) h1 trains_in) as Hids.
  rewrite !adjust_inputs_some.
  - rewrite map_map, fold_left_app, (index_by_id_ids 0 _ trains_in ∅ Hids).
    do 2 f_equal. apply map_ext. apply section_of_dict_idem.
  - done.
  - intros Hnil. apply Hne. rewrite Hnil in Hids. by destruct trains_in.
Qed.

(** A witness: 10 seconds on T1, then 20 seconds on T1 and 5 on T2. *)
Lemma adjust_holds_two_batches_witness :
  adjust_inputs (sections scenarioA_net) scenarioA_trains [mkHold "T1" 10]
    = Some (sections scenarioA_net,
            [mkTrain "T1" 1 ["S1"] 10 None None; mkTrain "T2" 2 ["S1"] 60 None None])
  ∧ adjust_inputs (sections scenarioA_net)
      [mkTrain "T1" 1 ["S1"] 10 None None; mkTrain "T2" 2 ["S1"] 60 None None]
      [mkHold "T1" 20; mkHold "T2" 5]
    = adjust_inputs (sections scenarioA_net) scenarioA_trains
        ([mkHold "T1" 10] ++ [mkHold "T1" 20; mkHold "T2" 5]).
Proof.
  assert (H1 : adjust_inputs (sections scenarioA_net) scenarioA_trains [mkHold "T1" 10]
    = Some (sections scenarioA_net,
            [mkTrain "T1" 1 ["S1"] 10 None None; mkTrain "T2" 2 ["S1"] 60 None None])).
  { reflexivity. }
  split; [exact H1|]. exact (adjust_holds_two_batches _ _ _ _ _ _ H1).
Defined.

(** The order of the holds of one [/adjust] call does not matter. *)
Theorem adjust_holds_order_irrelevant (secs : list Section_) (trains_in : list TrainRequest)
  (holds holds' : list HoldAdjustment) :
  holds ≡ₚ holds' -> adjust_inputs secs trains_in holds = adjust_inputs secs trains_in holds'.
Proof.
  intros Hp. unfold adjust_inputs. destruct trains_in as [|t0 ts]; [done|].
  set (tr := t0 :: ts). do 2 f_equal.
  apply list_eq. intros i. rewrite !adjust_store_lookup.
  destruct (tr !! i) as [t|]; simpl; [|done]. f_equal. unfold held.
  by rewrite (total_hold_perm holds holds' (t_id t) Hp).
Qed.

(** A witness: the holds on T1 and T2 given in the two orders. *)
Lemma adjust_holds_order_irrelevant_witness :
  [mkHold "T1" 10; mkHold "T2" 5] ≡ₚ [mkHold "T2" 5; mkHold "T1" 10]
  ∧ adjust_inputs (sections scenarioA_net) scenarioA_trains [mkHold "T1" 10; mkHold "T2" 5]
    = adjust_inputs (sections scenarioA_net) scenarioA_trains [mkHold "T2" 5; mkHold "T1" 10].
Proof.
  assert (Hp : [mkHold "T1" 10; mkHold "T2" 5] ≡ₚ [mkHold "T2" 5; mkHold "T1" 10])
    by apply perm_swap.
  split; [exact Hp|]. exact (adjust_holds_order_irrelevant _ _ _ _ Hp).
Defined.

(* ------------------------------------------------------------------ *)
(** ** The [/resolve] endpoint ([src/api.py]) *)

(** [involved]: the string train ids listed by the predicted conflicts
    (each conflict given by the strings of its [trains] list). *)
Definition conflict_trains (conflicts : list (list string)) : gset string :=
  ⋃ (map list_to_set conflicts).

(** [section_ids]: every section named by the routes of [ts]. *)
Definition route_section_ids (ts : list TrainRequest) : gset string :=
  ⋃ (map (λ t, list_to_set (route_sections t)) ts).

Section Resolve.

Variable schedule_trains_milp : NetworkModel -> list TrainRequest -> result (list ScheduleItem).

(** The schedule of [/resolve] once the state is known to have trains:
    without conflicts the whole state is scheduled inside
    [try ... except Exception], an exception giving the empty schedule;
    otherwise only the involved trains, on the sections their routes
    name, and an exception propagates. *)
Definition resolve_core (state_sections : list Section_) (state_trains : list TrainRequest)
  (conflicts : list (list string)) (solver : string) (milp_time_limit : option Z)
  : result (list ScheduleItem) :=
  let involved := conflict_trains conflicts in
  if bool_decide (involved = ∅) then
    match schedule_trains schedule_trains_milp state_trains
            (mkNetwork (map section_of_dict state_sections)) solver milp_time_limit with
    | Ok items => Ok items
    | Err _ => Ok []
    end
  else
    let trains_in := List.filter (λ t, bool_decide (t_id t ∈ involved)) state_trains in
    let section_ids := route_section_ids trains_in in
    let sections_in := List.filter (λ s, bool_decide (s_id s ∈ section_ids)) state_sections in
    schedule_trains schedule_trains_milp trains_in
      (mkNetwork (map section_of_dict sections_in)) solver milp_time_limit.

(** [/resolve]; [None] is [{"error": "missing state"}], returned when
    the state has no trains. *)
Definition resolve_schedule (state_sections : list Section_) (state_trains : list TrainRequest)
  (conflicts : list (list string)) (solver : string) (milp_time_limit : option Z)
  : option (result (list ScheduleItem)) :=
  match state_trains with
  | [] => None
  | _ => Some (resolve_core state_sections state_trains conflicts solver milp_time_limit)
  end.

End Resolve.

(* ------------------------------------------------------------------ *)
(** ** [summarize_schedule] ([src/sim/simulator.py]) *)

Record Summary := mkSummary {
  total_trains : Z;
  makespan : Z;
  utilization : Z;
  conflicts : Z
}.

Section Summarize.

(** [int(a / b)] for ints [a] and [b > 0]: Python's true division
    rounds to the nearest float and [int] truncates it. *)
Variable int_true_div : Z -> Z -> Z.

Definition summarize_schedule (items : list ScheduleItem) : Summary :=
  match items with
  | [] => mkSummary 0 0 0 0
  | i0 :: rest =>
      let start := fold_left Z.min (map entry rest) (entry i0) in
      let end_ := fold_left Z.max (map exit rest) (exit i0) in
      let makespan := end_ - start in
      let total_time := foldr Z.add 0 (map (λ i, exit i - entry i) items) in
      let utilization := if 0 <? makespan then int_true_div (100 * total_time) makespan else 0 in
      mkSummary (Z.of_nat (size (list_to_set (map train_id items) : gset string)))
                makespan (Z.min utilization 100) 0
  end.

End Summarize.

(* ------------------------------------------------------------------ *)
(** ** [/resolve]: the conflict subset *)

Lemma schedule_trains_greedy
  (milp : NetworkModel -> list TrainRequest -> result (list ScheduleItem))
  (trains : list TrainRequest) (network : NetworkModel) (solver : string)
  (milp_time_limit : option Z) :
  schedule_trains milp trains network solver milp_time_limit = greedy_schedule trains network.
Proof.
  unfold schedule_trains.
  destruct (String.eqb solver "milp"); [|done].
  destruct (milp_call_type_error (λ _ : unit, milp network trains)) as [msg ->].
  done.
Qed.

Lemma resolve_schedule_some
  (milp : NetworkModel -> list TrainRequest -> result (list ScheduleItem))
  (secs : list Section_) (trains : list TrainRequest) (conflicts : list (list string))
  (solver : string) (tl : option Z) :
  trains ≠ [] ->
  resolve_schedule milp secs trains conflicts solver tl =
  Some (resolve_core milp secs trains conflicts solver tl).
Proof. by destruct trains. Qed.

Lemma greedy_items_from_trains (trains : list TrainRequest) (net : NetworkModel)
  (res : list ScheduleItem) :
  greedy_schedule trains net = Ok res ->
  ∀ x, x ∈ res -> ∃ t, t ∈ trains ∧ train_id x = t_id t.
Proof.
  unfold greedy_schedule.
  destruct (schedule_all net (sort_trains trains) (mkGState (init_occupancy net) []))
    as [st|] eqn:Hall; [|discriminate].
  simpl. intros [= <-].
  destruct (schedule_all_shape _ _ _ _ Hall) as (blocks & Hst & Hf). simpl in Hst.
  rewrite Hst. intros x Hx. apply list_elem_of_In, in_concat in Hx as (blk & Hblk & Hx).
  apply list_elem_of_In, list_elem_of_lookup_1 in Hblk as [k Hk].
  apply list_elem_of_In in Hx.
  destruct (Forall2_lookup_r _ _ _ _ _ Hf Hk) as (t & Ht & _ & Hids & _).
  exists t. split; [apply elem_of_sort_trains; by eapply list_elem_of_lookup_2|].
  by apply (proj1 (Forall_forall _ _) Hids).
Qed.

(** When the request names conflicting trains, [/resolve] schedules
    those trains only: every item it returns belongs to a train listed
    by a conflict. *)
Theorem resolve_only_involved_trains
  (milp : NetworkModel -> list TrainRequest -> result (list ScheduleItem))
  (secs : list Section_) (trains : list TrainRequest) (conflicts : list (list string))
  (solver : string) (tl : option Z) (res : list ScheduleItem) :
  conflict_trains conflicts ≠ ∅ ->
  resolve_schedule milp secs trains conflicts solver tl = Some (Ok res) ->
  ∀ x, x ∈ res -> train_id x ∈ conflict_trains conflicts.
Proof.
  intros Hne Hres x Hx.
  destruct trains as [|t0 ts]; [discriminate|].
  rewrite resolve_schedule_some in Hres by done. injection Hres as Hres.
  unfold resolve_core in Hres. rewrite bool_decide_eq_false_2 in Hres by done.
  rewrite schedule_trains_greedy in Hres.
  destruct (greedy_items_from_trains _ _ _ Hres x Hx) as (t & Ht & ->).
  apply list_elem_of_In, filter_In in Ht as [_ Ht].
  by apply bool_decide_eq_true_1 in Ht.
Qed.

(** A witness: Scenario A with a conflict naming T1 alone; T1 then
    runs at its planned departure and T2 is not rescheduled. *)
Lemma resolve_only_involved_trains_witness :
  conflict_trains [["T1"]] ≠ ∅
  ∧ resolve_schedule (λ _ _, Ok []) (sections scenarioA_net) scenarioA_trains [["T1"]]
      "greedy" None = Some (Ok [mkItem "T1" "S1" 0 100])
  ∧ ∀ x, x ∈ [mkItem "T1" "S1" 0 100] -> train_id x ∈ conflict_trains [["T1"]].
Proof.
  assert (Hne : conflict_trains [["T1"]] ≠ ∅) by (unfold conflict_trains; simpl; set_solver).
  assert (Hres : resolve_schedule (λ _ _, Ok []) (sections scenarioA_net) scenarioA_trains
                   [["T1"]] "greedy" None = Some (Ok [mkItem "T1" "S1" 0 100])).
  { rewrite resolve_schedule_some by discriminate. unfold resolve_core.
    rewrite bool_decide_eq_false_2 by exact Hne.
    assert (Hf : List.filter (λ t, bool_decide (t_id t ∈ conflict_trains [["T1"]]))
                   scenarioA_trains = [mkTrain "T1" 1 ["S1"] 0 None None]).
    { simpl. rewrite bool_decide_eq_true_2 by (unfold conflict_trains; simpl; set_solver).
      rewrite bool_decide_eq_false_2 by (unfold conflict_trains; simpl; set_solver).
      done. }
    rewrite Hf. simpl.
    rewrite bool_decide_eq_true_2 by (unfold route_section_ids; simpl; set_solver).
    reflexivity. }
  split; [exact Hne|]. split; [exact Hres|].
  exact (resolve_only_involved_trains _ _ _ _ _ _ _ Hne Hres).
Defined.

Lemma find_section_map_dict (secs : list Section_) (sid : string) :
  find_section (map section_of_dict secs) sid = section_of_dict <$> find_section secs sid.
Proof.
  induction secs as [|s secs IH]; simpl; [done|].
  destruct (String.eqb (s_id s) sid); [done | exact IH].
Qed.

Lemma find_section_filter_ids (secs : list Section_) (X : gset string) (sid : string)
  (s : Section_) :
  find_section secs sid = Some s -> sid ∈ X ->
  find_section (List.filter (λ s, bool_decide (s_id s ∈ X)) secs) sid = Some s.
Proof.
  intros Hf HX. induction secs as [|s0 secs IH]; simpl in *; [discriminate|].
  destruct (String.eqb_spec (s_id s0) sid) as [Hid|Hne].
  - injection Hf as <-. rewrite bool_decide_eq_true_2 by (by rewrite Hid).
    simpl. by rewrite (proj2 (String.eqb_eq _ _) Hid).
  - destruct (bool_decide (s_id s0 ∈ X)); simpl; [|by apply IH].
    rewrite (proj2 (String.eqb_neq _ _) Hne). by apply IH.
Qed.

Lemma greedy_ok_of_known (trains : list TrainRequest) (net : NetworkModel) :
  routes_known net trains -> ∃ res, greedy_schedule trains net = Ok res.
Proof.
  intros Hk. unfold greedy_schedule.
  destruct (schedule_all_ok net (sort_trains trains) (mkGState (init_occupancy net) []))
    as [st Hst].
  - apply ginv_init.
  - intros t sid Ht. apply Hk. by apply elem_of_sort_trains.
  - rewrite Hst. simpl. eauto.
Qed.

(** [/resolve] returns a schedule, not an error, for every state with
    trains whose routes name sections of the state: the conflict subset
    keeps every section the involved trains' routes name, and without
    conflicts an exception would turn into the empty schedule anyway. *)
Theorem resolve_ok_when_routes_known
  (milp : NetworkModel -> list TrainRequest -> result (list ScheduleItem))
  (secs : list Section_) (trains : list TrainRequest) (conflicts : list (list string))
  (solver : string) (tl : option Z) :
  trains ≠ [] -> routes_known (mkNetwork secs) trains ->
  ∃ res, resolve_schedule milp secs trains conflicts solver tl = Some (Ok res).
Proof.
  intros Hne Hk. rewrite resolve_schedule_some by done. unfold resolve_core.
  case_bool_decide.
  - destruct (schedule_trains _ _ _ _ _); eauto.
  - rewrite schedule_trains_greedy.
    set (X := conflict_trains conflicts).
    set (trains_in := List.filter (λ t, bool_decide (t_id t ∈ X)) trains).
    destruct (greedy_ok_of_known trains_in
                (mkNetwork (map section_of_dict
                   (List.filter (λ s, bool_decide (s_id s ∈ route_section_ids trains_in)) secs))))
      as [res Hres]; [|rewrite Hres; eauto].
    intros t sid Ht Hsid. simpl.
    assert (Htin : t ∈ trains).
    { apply list_elem_of_In, filter_In in Ht as [Ht _]. by apply list_elem_of_In. }
    destruct (Hk t sid Htin Hsid) as [s Hs]. simpl in Hs.
    rewrite find_section_map_dict.
    rewrite (find_section_filter_ids secs _ sid s Hs); [simpl; eauto|].
    unfold route_section_ids. apply elem_of_union_list.
    exists (list_to_set (route_sections t)). split.
    + apply list_elem_of_In, in_map_iff. exists t. split; [done|]. by apply list_elem_of_In.
    + by apply elem_of_list_to_set.
Qed.

(** A witness: Scenario A with a conflict naming T2. *)
Lemma resolve_ok_when_routes_known_witness :
  routes_known (mkNetwork (sections scenarioA_net)) scenarioA_trains
  ∧ ∃ res, resolve_schedule (λ _ _, Ok []) (sections scenarioA_net) scenarioA_trains [["T2"]]
             "greedy" None = Some (Ok res).
Proof.
  assert (Hk : routes_known (mkNetwork (sections scenarioA_net)) scenarioA_trains).
  { intros t sid Ht Hsid. unfold scenarioA_trains in Ht.
    repeat (apply elem_of_cons in Ht as [->|Ht]); [..|by apply elem_of_nil in Ht];
      simpl in Hsid; apply list_elem_of_singleton in Hsid as ->; simpl; eauto. }
  split; [exact Hk|].
  exact (resolve_ok_when_routes_known (λ _ _, Ok []) (sections scenarioA_net) scenarioA_trains [["T2"]] "greedy" None ltac:(discriminate) Hk).
Defined.

(** A train that no conflict names changes nothing in [/resolve]: the
    involved trains are scheduled as if it were absent from the state,
    even when it runs on their sections. *)
Theorem resolve_ignores_uninvolved_train
  (milp : NetworkModel -> list TrainRequest -> result (list ScheduleItem))
  (secs : list Section_) (trains1 trains2 : list TrainRequest) (u : TrainRequest)
  (conflicts : list (list string)) (solver : string) (tl : option Z) :
  conflict_trains conflicts ≠ ∅ -> t_id u ∉ conflict_trains conflicts ->
  trains1 ++ trains2 ≠ [] ->
  resolve_schedule milp secs (trains1 ++ u :: trains2) conflicts solver tl =
  resolve_schedule milp secs (trains1 ++ trains2) conflicts solver tl.
Proof.
  intros Hc Hu Hne.
  rewrite !resolve_schedule_some by first [done | by destruct trains1].
  unfold resolve_core. rewrite !bool_decide_eq_false_2 by done.
  rewrite !List.filter_app. simpl. by rewrite bool_decide_eq_false_2 by done.
Qed.

(** A witness: T2 of Scenario A, not named by the conflict on T1. *)
Lemma resolve_ignores_uninvolved_train_witness :
  (conflict_trains [["T1"]] ≠ ∅) ∧ ("T2" ∉ conflict_trains [["T1"]])
  ∧ resolve_schedule (λ _ _, Ok []) (sections scenarioA_net) scenarioA_trains [["T1"]] "greedy" None
    = resolve_schedule (λ _ _, Ok []) (sections scenarioA_net)
        [mkTrain "T1" 1 ["S1"] 0 None None] [["T1"]] "greedy" None.
Proof.
  assert (Hc : conflict_trains [["T1"]] ≠ ∅) by (unfold conflict_trains; simpl; set_solver).
  assert (Hu : "T2" ∉ conflict_trains [["T1"]]) by (unfold conflict_trains; simpl; set_solver).
  split; [exact Hc|]. split; [exact Hu|].
  exact (resolve_ignores_uninvolved_train _ _ [mkTrain "T1" 1 ["S1"] 0 None None] []
           (mkTrain "T2" 2 ["S1"] 60 None None) [["T1"]] "greedy" None Hc Hu ltac:(discriminate)).
Defined.

(* ------------------------------------------------------------------ *)
(** ** [summarize_schedule] of a greedy schedule *)

Lemma summarize_total_trains (div : Z -> Z -> Z) (items : list ScheduleItem) :
  total_trains (summarize_schedule div items) =
  Z.of_nat (size (list_to_set (map train_id items) : gset string)).
Proof. by destruct items. Qed.

Lemma elem_of_map_iff {A B} (f : A -> B) (l : list A) (y : B) :
  y ∈ map f l <-> ∃ x, x ∈ l ∧ f x = y.
Proof.
  rewrite list_elem_of_In, in_map_iff. split.
  - intros (x & Hx & Hin). exists x. split; [by apply list_elem_of_In | done].
  - intros (x & Hin & Hx). exists x. split; [done | by apply list_elem_of_In].
Qed.

Lemma blocks_train_ids (net : NetworkModel) (ts : list TrainRequest)
  (blocks : list (list ScheduleItem)) (x : string) :
  Forall2 (train_block net) ts blocks ->
  x ∈ map train_id (concat blocks) <-> ∃ t, t ∈ ts ∧ route_sections t ≠ [] ∧ t_id t = x.
Proof.
  induction 1 as [|t blk ts blocks Hb _ IH]; simpl.
  - split; [intros Hx; by apply elem_of_nil in Hx|].
    intros (? & Ht & _). by apply elem_of_nil in Ht.
  - destruct Hb as (Hmap & Hids & _ & _).
    rewrite map_app, elem_of_app, IH. split.
    + intros [Hx|(t' & Ht' & Hr & Hid)].
      * apply elem_of_map_iff in Hx as (y & Hy & <-).
        exists t. split; [set_solver|]. split.
        -- intros Hr. rewrite Hr in Hmap. apply map_eq_nil in Hmap. subst blk.
           by apply elem_of_nil in Hy.
        -- symmetry. by apply (proj1 (Forall_forall _ _) Hids).
      * exists t'. split; [set_solver | done].
    + intros (t' & Ht' & Hr & <-). apply elem_of_cons in Ht' as [->|Ht'].
      * left. destruct blk as [|y blk]; [by destruct (route_sections t)|].
        apply elem_of_map_iff. exists y. split; [set_solver|].
        by apply (proj1 (Forall_forall _ _) Hids); set_solver.
      * right. eauto.
Qed.

(** [summarize_schedule] on a greedy schedule counts as [total_trains]
    the distinct ids of the trains with a non-empty route: a train with
    an empty route gets no item, and trains sharing an id count once. *)
Theorem summarize_greedy_total_trains (div : Z -> Z -> Z) (trains : list TrainRequest)
  (net : NetworkModel) (res : list ScheduleItem) :
  greedy_schedule trains net = Ok res ->
  total_trains (summarize_schedule div res) =
  Z.of_nat (size (list_to_set
    (map t_id (List.filter (λ t, negb (bool_decide (route_sections t = []))) trains))
    : gset string)).
Proof.
  unfold greedy_schedule.
  destruct (schedule_all net (sort_trains trains) (mkGState (init_occupancy net) []))
    as [st|] eqn:Hall; [|discriminate].
  simpl. intros [= <-].
  destruct (schedule_all_shape _ _ _ _ Hall) as (blocks & Hst & Hf). simpl in Hst.
  rewrite summarize_total_trains, Hst. do 2 f_equal.
  apply set_eq. intros x. rewrite !elem_of_list_to_set, (blocks_train_ids _ _ _ x Hf).
  rewrite elem_of_map_iff. split.
  - intros (t & Ht & Hr & Hid). exists t. split; [|done].
    apply list_elem_of_In, filter_In. split.
    + apply list_elem_of_In. by apply elem_of_sort_trains.
    + by rewrite bool_decide_eq_false_2.
  - intros (t & Ht & Hid). apply list_elem_of_In, filter_In in Ht as [Ht Hr].
    exists t. split; [apply elem_of_sort_trains; by apply list_elem_of_In|].
    split; [|done]. intros He. by rewrite bool_decide_eq_true_2 in Hr.
Qed.

(** A witness: Scenario A plus a train with an empty route and a second
    train named T1; two distinct ids are counted. *)
Lemma summarize_greedy_total_trains_witness :
  greedy_schedule (scenarioA_trains ++ [mkTrain "T9" 1 [] 0 None None;
                                        mkTrain "T1" 0 ["S1"] 0 None None]) scenarioA_net
    = Ok [mkItem "T2" "S1" 60 160; mkItem "T1" "S1" 280 380; mkItem "T1" "S1" 500 600]
  ∧ total_trains (summarize_schedule Z.quot
      [mkItem "T2" "S1" 60 160; mkItem "T1" "S1" 280 380; mkItem "T1" "S1" 500 600]) = 2.
Proof.
  assert (Hg : greedy_schedule (scenarioA_trains ++ [mkTrain "T9" 1 [] 0 None None;
                                        mkTrain "T1" 0 ["S1"] 0 None None]) scenarioA_net
    = Ok [mkItem "T2" "S1" 60 160; mkItem "T1" "S1" 280 380; mkItem "T1" "S1" 500 600]).
  { reflexivity. }
  split; [exact Hg|].
  rewrite (summarize_greedy_total_trains Z.quot _ _ _ Hg). reflexivity.
Defined.

(* ------------------------------------------------------------------ *)
(** ** The per-train lateness map of [/schedule] and [/whatif] *)

(** The loop of [/schedule] (and, identically, of [/whatif]) filling
    the response's [lateness_by_train]:
<<
    for t in trains:
        if t.due_time is not None:
            last_sid = t.route_sections[-1]
            entries = [...]
            if entries:
                lateness_by_train[t.id] = max(0, int(entries[0]) - int(t.due_time))
>>
    It lacks the [and t.route_sections] guard of [lateness_kpis];
    [None] is the [IndexError] of [t.route_sections[-1]] on an empty
    route. *)
Definition endpoint_lateness_step (items : list ScheduleItem) (m : option (gmap string Z))
  (t : TrainRequest) : option (gmap string Z) :=
  match m with
  | None => None
  | Some m =>
      match due_time t with
      | None => Some m
      | Some due =>
          match last (route_sections t) with
          | None => None
          | Some last_sid =>
              match entries_on items (t_id t) last_sid with
              | e0 :: _ => Some (<[t_id t := Z.max 0 (e0 - due)]> m)
              | [] => Some m
              end
          end
      end
  end.

Definition endpoint_lateness (items : list ScheduleItem) (trains : list TrainRequest)
  : option (gmap string Z) :=
  fold_left (endpoint_lateness_step items) trains (Some ∅).

Lemma endpoint_lateness_fold_none (items : list ScheduleItem) (ts : list TrainRequest) :
  fold_left (endpoint_lateness_step items) ts None = None.
Proof. induction ts; simpl; done. Qed.

(** Unless a train with a due time has an empty route, the lateness map
    of [/schedule] and [/whatif] is the dict [lateness_kpis] builds. *)
Theorem endpoint_lateness_agrees (items : list ScheduleItem) (trains : list TrainRequest) :
  (∀ t, t ∈ trains -> due_time t ≠ None -> route_sections t ≠ []) ->
  endpoint_lateness items trains = Some (lateness_by_train items trains).
Proof.
  unfold endpoint_lateness, lateness_by_train. generalize (∅ : gmap string Z).
  induction trains as [|t ts IH]; intros m Hr; simpl; [done|].
  rewrite <- IH by set_solver. f_equal.
  unfold lateness_step.
  destruct (due_time t) as [due|] eqn:Hdue; [|done].
  destruct (route_sections t) as [|s r] eqn:Hrs.
  { exfalso. by apply (Hr t); [set_solver | rewrite Hdue |]. }
  destruct (last (s :: r)) as [last_sid|] eqn:Hl; [|by apply last_None in Hl].
  by destruct (entries_on items (t_id t) last_sid).
Qed.

(** A witness: one train due at 200 entering its last section at 260. *)
Lemma endpoint_lateness_agrees_witness :
  (∀ t, t ∈ [mkTrain "T1" 1 ["S1"] 0 None (Some 200)] -> due_time t ≠ None ->
        route_sections t ≠ [])
  ∧ endpoint_lateness [mkItem "T1" "S1" 260 360] [mkTrain "T1" 1 ["S1"] 0 None (Some 200)]
    = Some (lateness_by_train [mkItem "T1" "S1" 260 360]
              [mkTrain "T1" 1 ["S1"] 0 None (Some 200)]).
Proof.
  assert (Hr : ∀ t, t ∈ [mkTrain "T1" 1 ["S1"] 0 None (Some 200)] -> due_time t ≠ None ->
                    route_sections t ≠ []).
  { intros t Ht _. apply list_elem_of_singleton in Ht as ->. discriminate. }
  split; [exact Hr|]. exact (endpoint_lateness_agrees _ _ Hr).
Defined.

(** A train with a due time and an empty route makes [/schedule] and
    [/whatif] raise [IndexError], wherever it sits in the list, although
    the scheduler and [lateness_kpis] accept it. *)
Theorem endpoint_lateness_index_error (items : list ScheduleItem) (trains : list TrainRequest)
  (t : TrainRequest) :
  t ∈ trains -> due_time t ≠ None -> route_sections t = [] ->
  endpoint_lateness items trains = None.
Proof.
  intros Ht Hdue Hr. unfold endpoint_lateness. generalize (∅ : gmap string Z).
  induction trains as [|t0 ts IH]; intros m; [by apply elem_of_nil in Ht|].
  cbn [fold_left]. apply elem_of_cons in Ht as [->|Ht].
  - unfold endpoint_lateness_step at 2. destruct (due_time t0) as [due|]; [|done]. rewrite Hr. simpl.
    apply endpoint_lateness_fold_none.
  - specialize (IH Ht).
    destruct (endpoint_lateness_step items (Some m) t0) as [m'|] eqn:Hs.
    + apply IH.
    + apply endpoint_lateness_fold_none.
Qed.

(** A witness: Scenario A's T1 followed by a train T9 due at 100 with an
    empty route; the greedy scheduler still returns T1's item. *)
Lemma endpoint_lateness_index_error_witness :
  greedy_schedule [mkTrain "T1" 1 ["S1"] 0 None (Some 200); mkTrain "T9" 1 [] 0 None (Some 100)]
    scenarioA_net = Ok [mkItem "T1" "S1" 0 100]
  ∧ endpoint_lateness [mkItem "T1" "S1" 0 100]
      [mkTrain "T1" 1 ["S1"] 0 None (Some 200); mkTrain "T9" 1 [] 0 None (Some 100)] = None.
Proof.
  split; [reflexivity|].
  exact (endpoint_lateness_index_error [mkItem "T1" "S1" 0 100]
           [mkTrain "T1" 1 ["S1"] 0 None (Some 200); mkTrain "T9" 1 [] 0 None (Some 100)]
           (mkTrain "T9" 1 [] 0 None (Some 100))
           ltac:(set_solver) ltac:(discriminate) eq_refl).
Defined.
